(** * Verse segmentation of the Quran scraper: numeral decoder and segmenter

    A shallow embedding of the two [parseVersesFromContent] routines, of
    [arabicIndicToNumber] and of [numberToArabicIndic], with the JavaScript
    built-ins they call ([String.prototype.split] with a regular
    expression, [RegExp.prototype.test], [String.prototype.trim],
    [parseInt], [String(number)]) written out over UTF-16 code units.

    Source files:
    - [part_000] : the API route (markers set off by spaces, "mid-stream");
    - [part_003] : the batch script (markers at the end of a verse,
                   "end-of-unit");
    - [part_001] : the page component holding [numberToArabicIndic]. *)

From Stdlib Require Import ZArith List Bool Lia Sorted.
Import ListNotations.
Local Open Scope Z_scope.

(* ================================================================== *)
(** ** JavaScript strings and numbers *)
(* ================================================================== *)

Module JS.

(** A JavaScript string is a sequence of 16-bit code units.  Every
    character the segmenter looks at lies in the Basic Multilingual Plane,
    so a code unit is a code point there; surrogates pass through every
    function below unchanged. *)
Definition str := list Z.

(** [WhiteSpace] and [LineTerminator] of ECMA-262: the set matched by [\s]
    in a regular expression, stripped by [trim] and skipped by [parseInt]. *)
Definition isWhiteSpace (c : Z) : bool :=
  ((0x09 <=? c) && (c <=? 0x0D))
  || (c =? 0x20) || (c =? 0xA0) || (c =? 0x1680)
  || ((0x2000 <=? c) && (c <=? 0x200A))
  || (c =? 0x2028) || (c =? 0x2029) || (c =? 0x202F)
  || (c =? 0x205F) || (c =? 0x3000) || (c =? 0xFEFF).

Fixpoint trimStart (s : str) : str :=
  match s with
  | c :: s' => if isWhiteSpace c then trimStart s' else s
  | [] => []
  end.

Definition trimEnd (s : str) : str := rev (trimStart (rev s)).

(** [s.trim()] *)
Definition trim (s : str) : str := trimEnd (trimStart s).

(** Truthiness of a string: [if (s)] holds for every string but the empty
    one. *)
Definition truthy (s : str) : bool :=
  match s with [] => false | _ :: _ => true end.

(** The Number values that integer parsing can produce.  [Fin z] is a
    finite double whose value is the integer [z]; [-0] is identified with
    [Fin 0] (they are [===]). *)
Inductive Number : Type :=
| NaN
| Fin (z : Z)
| PosInf
| NegInf.

(** [a === b] on Numbers: [NaN] differs from everything, itself included. *)
Definition strictEq (a b : Number) : bool :=
  match a, b with
  | Fin x, Fin y => x =? y
  | PosInf, PosInf => true
  | NegInf, NegInf => true
  | _, _ => false
  end.

(** The Number value for a non-negative mathematical integer, in
    ECMA-262: IEEE 754 binary64, round to nearest, ties to even.  Below
    [2^53] every integer is a double.  Above, [v] lies in
    [[2^(52+e), 2^(53+e))] with [e = log2 v - 52 > 0] and the doubles there
    are the multiples of [2^e]; from [2^1024] on the result is infinite. *)
Definition roundNat (v : Z) : Number :=
  if v <? 2 ^ 53 then Fin v
  else
    let e := Z.log2 v - 52 in
    let q := v / 2 ^ e in
    let r := v mod 2 ^ e in
    let half := 2 ^ (e - 1) in
    let q' := if r <? half then q
              else if half <? r then q + 1
              else if Z.even q then q else q + 1 in
    let w := q' * 2 ^ e in
    if 2 ^ 1024 <=? w then PosInf else Fin w.

Definition negate (x : Number) : Number :=
  match x with
  | NaN => NaN
  | Fin z => Fin (- z)
  | PosInf => NegInf
  | NegInf => PosInf
  end.

(** Value of a code unit as a digit in [radix] (digits, then letters of
    either case), if it is one. *)
Definition digitValue (radix : Z) (c : Z) : option Z :=
  let v := if (0x30 <=? c) && (c <=? 0x39) then Some (c - 0x30)
           else if (0x61 <=? c) && (c <=? 0x7A) then Some (c - 0x61 + 10)
           else if (0x41 <=? c) && (c <=? 0x5A) then Some (c - 0x41 + 10)
           else None in
  match v with
  | Some d => if d <? radix then Some d else None
  | None => None
  end.

(** The longest prefix of radix digits, read most significant digit first;
    [None] when that prefix is empty. *)
Fixpoint parseDigits (radix : Z) (acc : Z) (seen : bool) (s : str)
  : option Z :=
  match s with
  | c :: s' =>
      match digitValue radix c with
      | Some d => parseDigits radix (acc * radix + d) true s'
      | None => if seen then Some acc else None
      end
  | [] => if seen then Some acc else None
  end.

(** [parseInt(s)] with no radix argument: leading white space is skipped,
    one sign is read, a [0x]/[0X] prefix selects radix 16 and radix 10 is
    used otherwise, the longest digit prefix is converted, and an empty
    one gives [NaN].  The conversion is the exact one (engines do not use
    the licence to zero the digits after the twentieth). *)
Definition parseInt (s : str) : Number :=
  let s1 := trimStart s in
  let '(neg, s2) :=
    match s1 with
    | c :: t => if c =? 0x2D then (true, t)          (* "-" *)
                else if c =? 0x2B then (false, t)    (* "+" *)
                else (false, s1)
    | [] => (false, s1)
    end in
  let '(radix, s3) :=
    match s2 with
    | c0 :: c1 :: t =>
        if (c0 =? 0x30) && ((c1 =? 0x78) || (c1 =? 0x58))  (* "0x", "0X" *)
        then (16, t) else (10, s2)
    | _ => (10, s2)
    end in
  match parseDigits radix 0 false s3 with
  | None => NaN
  | Some m => if neg then negate (roundNat m) else roundNat m
  end.

(** Decimal digits of a non-negative integer, most significant first, as
    ASCII code units.  [fuel] bounds the number of digits. *)
Fixpoint digitsOf (fuel : nat) (v : Z) (acc : str) : str :=
  match fuel with
  | O => acc
  | S f =>
      let acc' := (0x30 + v mod 10) :: acc in
      if v <? 10 then acc' else digitsOf f (v / 10) acc'
  end.

Definition decimal (v : Z) : str :=
  digitsOf (S (Z.to_nat (Z.log2 v))) v [].

(** One step of the digit search of [Number::toString]: with [n] digits
    before the decimal point and [k] significant digits, [s] is suitable
    when it has [k] digits and [s * 10^(n-k)] converts back to [x]. *)
Definition suitable (x n k s : Z) : bool :=
  (10 ^ (k - 1) <=? s) && (s <? 10 ^ k)
  && strictEq (roundNat (s * 10 ^ (n - k))) (Fin x).

(** A suitable value nearest to [x] is one of the two multiples of
    [10^(n-k)] around [x]; of two that both convert back, the nearer one is
    taken (the even one on a tie), as engines do. *)
Definition candidate (x n k : Z) : option Z :=
  let d := 10 ^ (n - k) in
  let lo := x / d in
  match suitable x n k lo, suitable x n k (lo + 1) with
  | true, true =>
      let below := x - lo * d in
      let above := (lo + 1) * d - x in
      Some (if below <? above then lo
            else if above <? below then lo + 1
            else if Z.even lo then lo else lo + 1)
  | true, false => Some lo
  | false, true => Some (lo + 1)
  | false, false => None
  end.

(** The least [k], tried from [k] upwards; when [fuel] runs out [k = n]
    and [s = x]: all the digits of [x] itself. *)
Fixpoint search (x n : Z) (fuel : nat) (k : Z) : Z * Z :=
  match fuel with
  | O => (n, x)
  | S f =>
      match candidate x n k with
      | Some s => (k, s)
      | None => search x n f (k + 1)
      end
  end.

(** [n], [k] and [s] of [Number::toString] for a positive integer-valued
    double [x]: [k >= 1] as small as possible, [10^(k-1) <= s < 10^k] and
    [s * 10^(n-k)] converts to [x].  [n] is the number of digits of [x],
    unless the next power of ten itself converts to [x]. *)
Definition shortest (x : Z) : Z * Z * Z :=
  let nx := Z.of_nat (length (decimal x)) in
  if strictEq (roundNat (10 ^ nx)) (Fin x) then (nx + 1, 1, 1)
  else
    let '(k, s) := search x nx (Z.to_nat (nx - 1)) 1 in
    (nx, k, s).

(** [String(x)] for an integer-valued double [x]: plain digits below
    [10^21], exponent notation from there on. *)
Definition toString (x : Z) : str :=
  let body (x : Z) : str :=
    if x =? 0 then [0x30]
    else
      let '(n, k, s) := shortest x in
      if n <=? 21 then decimal s ++ repeat 0x30 (Z.to_nat (n - k))
      else
        match decimal s with
        | d :: ds =>
            d :: (if k =? 1 then [] else 0x2E :: ds)     (* "." *)
              ++ [0x65; 0x2B] ++ decimal (n - 1)         (* "e+" *)
        | [] => []
        end in
  if x <? 0 then 0x2D :: body (- x) else body x.

End JS.
Import JS.

(* ================================================================== *)
(** ** The numeral converters *)
(* ================================================================== *)

(** The lookup table of [arabicIndicToNumber] (part_000 lines 16-37,
    part_003 lines 150-155): Arabic-Indic and Extended Arabic-Indic digits
    to ASCII digits. *)
Definition arabicIndicDigits : list (Z * Z) :=
  [ (0x660, 0x30); (0x661, 0x31); (0x662, 0x32); (0x663, 0x33);
    (0x664, 0x34); (0x665, 0x35); (0x666, 0x36); (0x667, 0x37);
    (0x668, 0x38); (0x669, 0x39);
    (0x6F0, 0x30); (0x6F1, 0x31); (0x6F2, 0x32); (0x6F3, 0x33);
    (0x6F4, 0x34); (0x6F5, 0x35); (0x6F6, 0x36); (0x6F7, 0x37);
    (0x6F8, 0x38); (0x6F9, 0x39) ].

Fixpoint lookup (table : list (Z * Z)) (c : Z) : option Z :=
  match table with
  | (k, v) :: table' => if k =? c then Some v else lookup table' c
  | [] => None
  end.

(** [arabicIndicDigits[c] ?? c] *)
Definition toAscii (c : Z) : Z :=
  match lookup arabicIndicDigits c with
  | Some d => d
  | None => c
  end.

(** [parseInt(str.split("").map((c) => arabicIndicDigits[c] ?? c).join(""))] *)
Definition arabicIndicToNumber (s : str) : Number :=
  parseInt (map toAscii s).

(** The [digits] array of [numberToArabicIndic] (part_001 line 18). *)
Definition digits : list Z :=
  [0x660; 0x661; 0x662; 0x663; 0x664; 0x665; 0x666; 0x667; 0x668; 0x669].

(** [digits[parseInt(d)]] for a one-character string [d]; [None] is
    [undefined], which [join] renders as the empty string. *)
Definition digitFor (d : Z) : option Z :=
  match parseInt [d] with
  | Fin v => if v <? 0 then None else nth_error digits (Z.to_nat v)
  | _ => None
  end.

(** [String(num).split("").map((d) => digits[parseInt(d)]).join("")], for
    an integer-valued [num]. *)
Definition numberToArabicIndic (num : Z) : str :=
  flat_map (fun d => match digitFor d with Some c => [c] | None => [] end)
           (toString num).

(* ================================================================== *)
(** ** The segmenter *)
(* ================================================================== *)

(** [interface Verse { number: number; text: string }].  A verse number is
    a count of accepted markers plus one, far below [2^53] for any string
    that fits in memory, so it is kept as an exact integer. *)
Record Verse : Type := mkVerse { number : Z; text : str }.

(** The two routines: [part_000] (markers set off by white space) and
    [part_003] (markers at the end of a verse).  They share the loop and
    differ in the regular expression of [split] and in how a part is
    appended to [currentText]. *)
Inductive convention : Type := MID_STREAM | END_OF_UNIT.

(** The character class [[٠-٩۰-۹]]: U+0660-U+0669 and U+06F0-U+06F9. *)
Definition isArabicIndicDigit (c : Z) : bool :=
  ((0x660 <=? c) && (c <=? 0x669)) || ((0x6F0 <=? c) && (c <=? 0x6F9)).

(** The longest run of class characters at the start of [s], and the rest. *)
Fixpoint digitRun (s : str) : str * str :=
  match s with
  | c :: s' =>
      if isArabicIndicDigit c
      then let '(run, rest) := digitRun s' in (c :: run, rest)
      else ([], s)
  | [] => ([], [])
  end.

(** [([٠-٩۰-۹]+)(?:\s|$)] matched at the start of [s]: the captured run
    and the input left after the match.  The greedy run is followed by a
    white-space character, which the match consumes, or by the end of the
    input.  A shorter run would be followed by a digit, so backtracking
    finds nothing more. *)
Definition matchMarker (s : str) : option (str * str) :=
  match digitRun s with
  | ([], _) => None
  | (run, []) => Some (run, [])
  | (run, w :: rest) => if isWhiteSpace w then Some (run, rest) else None
  end.

(** The pattern of each routine matched at the start of [s]:
    [/\s([٠-٩۰-۹]+)(?:\s|$)/] (part_000 line 165) and
    [/([٠-٩۰-۹]+)(?:\s|$)/] (part_003 line 174). *)
Definition matchAt (c : convention) (s : str) : option (str * str) :=
  match c with
  | MID_STREAM =>
      match s with
      | w :: s' => if isWhiteSpace w then matchMarker s' else None
      | [] => None
      end
  | END_OF_UNIT => matchMarker s
  end.

(** The loop of [RegExp.prototype[Symbol.split]]: [T] is the text between
    the end of the last match and the current position, [s] the input from
    the current position on.  A match pushes [T] and the capture and
    resumes after the match; otherwise the position advances by one code
    unit.  A match is never empty, so the test that a match ends where the
    last one did never fires, and the capture always takes part in the
    match, so no part is [undefined].  The limit of [2^32 - 1] parts is
    out of reach: there are at most twice the length plus one of them.
    [None] is a loop that has not finished within [fuel] iterations. *)
Fixpoint splitLoop (c : convention) (fuel : nat) (T s : str)
  : option (list str) :=
  match fuel with
  | O => None
  | S fuel' =>
      match s with
      | [] => Some [T]
      | ch :: s' =>
          match matchAt c s with
          | Some (capture, rest) =>
              match splitLoop c fuel' [] rest with
              | Some A => Some (T :: capture :: A)
              | None => None
              end
          | None => splitLoop c fuel' (T ++ [ch]) s'
          end
      end
  end.

(** [content.split(pattern)] *)
Definition split (c : convention) (content : str) : option (list str) :=
  splitLoop c (S (length content)) [] content.

(** [/^[٠-٩۰-۹]+$/.test(part)] *)
Definition isVerseNum (part : str) : bool :=
  truthy part && forallb isArabicIndicDigit part.

(** The variables of the loop of [parseVersesFromContent]. *)
Record state : Type := mkState {
  verses : list Verse;
  currentText : str;
  expectedVerseNum : Z
}.

Definition SPACE : Z := 0x20.

(** A marker that is not the expected one: [currentText += " " + part]
    (part_000 line 192), [currentText += part] (part_003 line 196). *)
Definition appendRejected (c : convention) (currentText part : str) : str :=
  match c with
  | MID_STREAM => currentText ++ ([SPACE] ++ part)
  | END_OF_UNIT => currentText ++ part
  end.

(** A part that is not a number:
    [currentText += (currentText ? " " : "") + part] (part_000 line 195),
    [currentText += part] (part_003 line 199). *)
Definition appendText (c : convention) (currentText part : str) : str :=
  match c with
  | MID_STREAM =>
      currentText ++ ((if truthy currentText then [SPACE] else []) ++ part)
  | END_OF_UNIT => currentText ++ part
  end.

(** [verses.push({ number, text })] when [text] is not empty. *)
Definition pushVerse (vs : list Verse) (n : Z) (t : str) : list Verse :=
  if truthy t then vs ++ [mkVerse n t] else vs.

(** The body of the [for] loop, for one element of [parts]. *)
Definition step (c : convention) (st : state) (part : str) : state :=
  if isVerseNum part then
    let num := arabicIndicToNumber part in
    if strictEq num (Fin (expectedVerseNum st)) then
      mkState (pushVerse (verses st) (expectedVerseNum st)
                         (trim (currentText st)))
              []
              (expectedVerseNum st + 1)
    else
      mkState (verses st)
              (appendRejected c (currentText st) part)
              (expectedVerseNum st)
  else
    mkState (verses st)
            (appendText c (currentText st) part)
            (expectedVerseNum st).

Definition initial : state := mkState [] [] 1.

(** The [for] loop over [parts]. *)
Definition scan (c : convention) (parts : list str) (st : state) : state :=
  fold_left (step c) parts st.

(** The code after the loop: the remaining text becomes the last verse. *)
Definition finish (st : state) : list Verse :=
  pushVerse (verses st) (expectedVerseNum st) (trim (currentText st)).

(** [parseVersesFromContent(content)] of part_000 ([MID_STREAM]) and of
    part_003 ([END_OF_UNIT]).  [None] only if [split] did not finish. *)
Definition parseVersesFromContent (c : convention) (content : str)
  : option (list Verse) :=
  match split c content with
  | Some parts => Some (finish (scan c parts initial))
  | None => None
  end.

(* ================================================================== *)
(** ** Notions used to state the properties *)
(* ================================================================== *)

(** Digit value of a character of either numeral alphabet: its position
    in the alphabet. *)
Definition digitOf (c : Z) : Z :=
  if c <? 0x6F0 then c - 0x660 else c - 0x6F0.

(** The digits composed left to right as a base-10 number, the leftmost
    digit being the most significant. *)
Definition composeBase10 (s : str) : Z :=
  fold_left (fun acc c => acc * 10 + digitOf c) s 0.

(** [n] is the value of a Number: converting it changes nothing. *)
Definition isNumberValue (n : Z) : Prop := roundNat n = Fin n.

(** No character of [s] belongs to a numeral alphabet. *)
Definition noNumeral (s : str) : bool :=
  forallb (fun c => negb (isArabicIndicDigit c)) s.

(** [s] consists solely of white space. *)
Definition blank (s : str) : bool := forallb isWhiteSpace s.

(** ASCII digits, the output alphabet of the lookup table. *)
Definition isAsciiDigit (c : Z) : bool := (0x30 <=? c) && (c <=? 0x39).

(** Value of a string of ASCII digits read in base 10 from [a]. *)
Definition asciiValue (a : Z) (ds : str) : Z :=
  fold_left (fun acc c => acc * 10 + (c - 0x30)) ds a.

(** [split] resumed in the middle of the input, with enough fuel. *)
Definition splitFrom (c : convention) (T s : str) : option (list str) :=
  splitLoop c (S (length s)) T s.

Definition numbers (vs : list Verse) : list Z := map number vs.

(** [ns] is strictly increasing, starts at [lo] or above and stays below
    [hi]. *)
Fixpoint ascending (lo : Z) (ns : list Z) (hi : Z) : Prop :=
  match ns with
  | [] => lo <= hi
  | n :: ns' => lo <= n /\ ascending (n + 1) ns' hi
  end.

(** [ns] is [lo, lo + 1, ..., hi - 1]. *)
Fixpoint consecutive (lo : Z) (ns : list Z) (hi : Z) : Prop :=
  match ns with
  | [] => lo = hi
  | n :: ns' => n = lo /\ consecutive (lo + 1) ns' hi
  end.

(** The first character, if any, is not white space. *)
Definition startsClean (t : str) : bool :=
  match t with
  | [] => true
  | ch :: _ => negb (isWhiteSpace ch)
  end.

(** The first character, if any, belongs to a numeral alphabet. *)
Definition startsDigit (t : str) : bool :=
  match t with
  | [] => false
  | ch :: _ => isArabicIndicDigit ch
  end.

(** [t] has no white space at either end. *)
Definition trimmed (t : str) : bool := startsClean t && startsClean (rev t).

(** [part] is the expected marker and the text gathered before it is
    empty once trimmed: the verse it closes is dropped. *)
Definition closesEmpty (st : state) (part : str) : bool :=
  isVerseNum part
  && strictEq (arabicIndicToNumber part) (Fin (expectedVerseNum st))
  && negb (truthy (trim (currentText st))).

(** No verse is dropped while the loop runs over [parts] from [st]. *)
Fixpoint dropsNone (c : convention) (parts : list str) (st : state) : bool :=
  match parts with
  | [] => true
  | part :: parts' =>
      negb (closesEmpty st part) && dropsNone c parts' (step c st part)
  end.

Definition neverDrops (c : convention) (content : str) : bool :=
  match split c content with
  | Some parts => dropsNone c parts initial
  | None => false
  end.

(** The text rebuilt from a list of units: every text followed by its
    marker, all separated by single spaces. *)
Fixpoint reconstruct (units : list Verse) : str :=
  match units with
  | [] => []
  | v :: units' =>
      text v ++ [SPACE] ++ numberToArabicIndic (number v)
        ++ match units' with
           | [] => []
           | _ :: _ => [SPACE] ++ reconstruct units'
           end
  end.

(** The part that [split] cuts before the marker of a unit of a rebuilt
    text. *)
Definition textPart (c : convention) (t : str) : str :=
  match c with
  | MID_STREAM => t
  | END_OF_UNIT => t ++ [SPACE]
  end.

(** A unit whose text can be rebuilt: it holds no numeral character. *)
Definition plainText (v : Verse) : bool := noNumeral (text v).

(** A unit as the data model wants it: a text that is not empty and has no
    white space at either end. *)
Definition goodVerse (v : Verse) : bool := truthy (text v) && trimmed (text v).

(** What the loop maintains: the numbers emitted so far increase strictly
    from 1 and stay below the expected number, and every unit is good. *)
Definition goodState (st : state) : Prop :=
  ascending 1 (numbers (verses st)) (expectedVerseNum st)
  /\ forallb goodVerse (verses st) = true.

(* ================================================================== *)
(** ** Concrete inputs *)
(* ================================================================== *)

(** "Hello ١ World ٢" *)
Definition helloWorld : str :=
  [0x48; 0x65; 0x6C; 0x6C; 0x6F; 0x20; 0x661; 0x20;
   0x57; 0x6F; 0x72; 0x6C; 0x64; 0x20; 0x662].

(** The content of the non-sequential example: two words, the marker ١٠,
    one word, the marker ٢, separated by single spaces. *)
Definition tenBeforeTwo : str :=
  [0x627; 0x644; 0x653; 0x631; 0x6DA; 0x20;
   0x62A; 0x650; 0x644; 0x6E1; 0x643; 0x64E; 0x20;
   0x661; 0x660; 0x20;
   0x621; 0x64E; 0x627; 0x64A; 0x64E; 0x670; 0x62A; 0x64F; 0x20;
   0x662].

(** "٩٠٠٧١٩٩٢٥٤٧٤٠٩٩٣": the sixteen digits of [2^53 + 1]. *)
Definition sixteenDigits : str :=
  [0x669; 0x660; 0x660; 0x667; 0x661; 0x669; 0x669; 0x662;
   0x665; 0x664; 0x667; 0x664; 0x660; 0x669; 0x669; 0x663].

(** "١ a": the first marker has no text before it. *)
Definition markerFirst : str := [0x661; 0x20; 0x61].

(** "٣ ٤": two markers, neither of them the expected one. *)
Definition threeFour : str := [0x663; 0x20; 0x664].

(** "a ١ b ٣ c" *)
Definition oneThenThree : str :=
  [0x61; 0x20; 0x661; 0x20; 0x62; 0x20; 0x663; 0x20; 0x63].

(* ================================================================== *)
(** ** The position-based routine of the route *)
(* ================================================================== *)

(** [/\s([٠-٩۰-۹]+)\s/] (part_000 line 50) matched at the start of [s]:
    the captured run and the input left after the match.  Unlike the
    pattern of [split], the run must be followed by a white-space
    character: the end of the input does not do. *)
Definition matchStandalone (s : str) : option (str * str) :=
  match s with
  | w :: s' =>
      if isWhiteSpace w then
        match digitRun s' with
        | ([], _) => None
        | (_, []) => None
        | (run, w2 :: rest) =>
            if isWhiteSpace w2 then Some (run, rest) else None
        end
      else None
  | [] => None
  end.

(** An element of [positions]: where a sequential marker was matched.
    [num] is only stored when it equals [lastVerseNum + 1], an exact
    integer. *)
Record position : Type := mkPosition {
  index : nat;
  num : Z;
  fullMatch : str
}.

(** The [while] loop over [verseNumberPattern.exec(fullText)] (part_000
    lines 60-71).  [s] is the input from [pos] on; a global pattern is
    tried at [lastIndex] and then one code unit further each time, and
    after a match the search resumes at the end of the match.  [None] is a
    loop that has not finished within [fuel] iterations. *)
Fixpoint execLoop (fuel : nat) (pos : nat) (s : str)
         (lastVerseNum : Z) (positions : list position)
  : option (list position) :=
  match fuel with
  | O => None
  | S fuel' =>
      match s with
      | [] => Some positions
      | _ :: s' =>
          match matchStandalone s with
          | Some (capture, rest) =>
              let full := firstn (length capture + 2) s in
              if strictEq (arabicIndicToNumber capture)
                          (Fin (lastVerseNum + 1))
              then execLoop fuel' (pos + length full) rest
                            (lastVerseNum + 1)
                            (positions
                               ++ [mkPosition pos (lastVerseNum + 1) full])
              else execLoop fuel' (pos + length full) rest
                            lastVerseNum positions
          | None => execLoop fuel' (S pos) s' lastVerseNum positions
          end
      end
  end.

(** [s.slice(start, end)] for [0 <= start] and [0 <= end]. *)
Definition slice (s : str) (start stop : nat) : str :=
  firstn (stop - start) (skipn start s).

(** End of a match: [positions[i].index + positions[i].fullMatch.length]. *)
Definition matchEnd (p : position) : nat := index p + length (fullMatch p).

(** The [for] loop of part_000 lines 74-83; [start] is 0 for the first
    position and the end of the previous match for the others. *)
Fixpoint extractVerses (fullText : str) (start : nat)
         (positions : list position) : list Verse :=
  match positions with
  | [] => []
  | p :: positions' =>
      mkVerse (num p) (trim (slice fullText start (matchEnd p)))
        :: extractVerses fullText (matchEnd p) positions'
  end.

(** The text after the last marker (part_000 lines 86-95). *)
Definition lastVerse (fullText : str) (positions : list position)
  : list Verse :=
  match rev positions with
  | [] => []
  | lastPos :: _ =>
      let remainingText := trim (skipn (matchEnd lastPos) fullText) in
      if truthy remainingText
      then [mkVerse (num lastPos + 1) remainingText]
      else []
  end.

(** [parseVerses(fullText)] (part_000 lines 46-98). *)
Definition parseVerses (fullText : str) : option (list Verse) :=
  match execLoop (S (length fullText)) 0 fullText 0 [] with
  | Some positions =>
      Some (extractVerses fullText 0 positions
              ++ lastVerse fullText positions)
  | None => None
  end.

(* ================================================================== *)
(** ** Building a surah from the payload *)
(* ================================================================== *)

(** The JSON payload of the source: [NameofSura] and [TextofSura], each
    possibly missing.  When present, [TextofSura] is taken to be an array
    of strings. *)
Record RawData : Type := mkRawData {
  NameofSura : option str;
  TextofSura : option (list str)
}.

(** What [fetch] resolved to: [response.ok], [response.status],
    [response.statusText] and the parsed body. *)
Record Response : Type := mkResponse {
  ok : bool;
  status : Z;
  statusText : str;
  json : RawData
}.

Module Surah.
(** [interface SurahData] (part_000 lines 8-13) and the object returned
    by [fetchSurah] (part_003 lines 254-259). *)
Record SurahData : Type := mkSurahData {
  name : str;
  bismillah : str;
  verses : list Verse;
  rawText : str
}.
End Surah.

(** The two failures of both callers: a response that is not ok, and a
    payload without a name or without text; and the failure that the
    [catch] block of [GET] reports, "Failed to scrape data" (part_000
    lines 152-157). *)
Inductive failure : Type :=
| HttpFailure (status : Z) (statusText : str)
| InvalidDataFormat
| ScrapeFailed.

(** [fetchSurah] throws or returns the surah. *)
Inductive outcome : Type :=
| Thrown (f : failure)
| Returned (data : Surah.SurahData).

(** [GET] answers with an error and its status, or with the surah. *)
Inductive reply : Type :=
| ErrorJson (f : failure) (status : Z)
| Json (data : Surah.SurahData).

(** "التوبة", the surah without Bismillah (part_003 line 145). *)
Definition NO_BISMILLAH_SURAH : str :=
  [0x627; 0x644; 0x62A; 0x648; 0x628; 0x629].

(** "الفاتحة", whose Bismillah is verse 1 (part_003 line 147). *)
Definition FATIHAH_SURAH : str :=
  [0x627; 0x644; 0x641; 0x627; 0x62A; 0x62D; 0x629].

(** [a === b] on strings. *)
Definition strEq (a b : str) : bool :=
  if list_eq_dec Z.eq_dec a b then true else false.

(** [items.join("")] *)
Definition join (items : list str) : str := concat items.

(** [rawData.TextofSura[2]?.trim() || ""] *)
Definition bismillahOf (items : list str) : str :=
  match nth_error items 2 with
  | Some item => trim item
  | None => []
  end.

(** [fetchSurah(name)] of the batch script (part_003 lines 212-260), from
    the resolved response on. *)
Definition fetchSurah (name : str) (response : Response) : option outcome :=
  if negb (ok response) then
    Some (Thrown (HttpFailure (status response) (statusText response)))
  else
    let rawData := json response in
    match NameofSura rawData, TextofSura rawData with
    | Some sura, Some items =>
        if negb (truthy sura) then Some (Thrown InvalidDataFormat)
        else
          let isNoBismillah := strEq name NO_BISMILLAH_SURAH in
          let isFatihah := strEq name FATIHAH_SURAH in
          let '(bismillah, mainContent) :=
            if isNoBismillah then ([], trim (join (skipn 2 items)))
            else if isFatihah then ([], trim (join (skipn 2 items)))
            else (bismillahOf items, trim (join (skipn 3 items))) in
          match parseVersesFromContent END_OF_UNIT mainContent with
          | Some verses =>
              Some (Returned (Surah.mkSurahData sura bismillah verses
                                                (trim (join items))))
          | None => None
          end
    | _, _ => Some (Thrown InvalidDataFormat)
    end.

(** The statuses that may not carry a body: 101, 103, 204, 205, 304. *)
Definition nullBodyStatus (status : Z) : bool :=
  (status =? 101) || (status =? 103) || (status =? 204)
  || (status =? 205) || (status =? 304).

(** [NextResponse.json(body, { status })] throws instead of returning a
    response when the status is outside 200..599 (a RangeError) or is a
    null body status (a TypeError, the body being the JSON text). *)
Definition jsonThrows (status : Z) : bool :=
  (status <? 200) || (599 <? status) || nullBodyStatus status.

(** [GET(request)] of the route (part_000 lines 100-159), from the
    resolved response on: the error responses with their status, or the
    surah.  On a response that is not ok the route answers with the
    status of that response (lines 115-120); when [NextResponse.json]
    throws on that status, the [catch] block answers 500 (lines
    152-157). *)
Definition GET (response : Response) : option reply :=
  if negb (ok response) then
    if jsonThrows (status response) then Some (ErrorJson ScrapeFailed 500)
    else
      Some (ErrorJson (HttpFailure (status response) (statusText response))
                      (status response))
  else
    let rawData := json response in
    match NameofSura rawData, TextofSura rawData with
    | Some sura, Some items =>
        if negb (truthy sura) then Some (ErrorJson InvalidDataFormat 500)
        else
          let fullText := trim (join items) in
          let bismillah := bismillahOf items in
          let mainContent := trim (join (skipn 3 items)) in
          match parseVersesFromContent MID_STREAM mainContent with
          | Some verses =>
              Some (Json (Surah.mkSurahData sura bismillah verses
                                            fullText))
          | None => None
          end
    | _, _ => Some (ErrorJson InvalidDataFormat 500)
    end.

(* ================================================================== *)
(** ** The lookup by name of the page *)
(* ================================================================== *)

(** [map.set(key, value)] on a [Map], kept as the list of its entries in
    insertion order: the value of an existing key is replaced in place, a
    new key is added at the end. *)
Fixpoint mapSet {V : Type} (m : list (str * V)) (key : str) (value : V)
  : list (str * V) :=
  match m with
  | [] => [(key, value)]
  | (k, v) :: m' =>
      if strEq k key then (k, value) :: m'
      else (k, v) :: mapSet m' key value
  end.

(** [map.get(key)]; [None] is [undefined]. *)
Fixpoint mapGet {V : Type} (m : list (str * V)) (key : str) : option V :=
  match m with
  | [] => None
  | (k, v) :: m' => if strEq k key then Some v else mapGet m' key
  end.

(** [new Map(entries)]: the entries are set one after the other. *)
Definition newMap {V : Type} (entries : list (str * V)) : list (str * V) :=
  fold_left (fun m e => mapSet m (fst e) (snd e)) entries [].

(** [surahByName] (part_002 lines 31-33), for the surahs of the data file
    and their [name] field. *)
Definition surahByName {S : Type} (nameOf : S -> str)
           (allSurahsData : list S) : list (str * S) :=
  newMap (map (fun s => (nameOf s, s)) allSurahsData).

(** [`Surah "${name}" not found in data`] *)
Definition notFound (name : str) : str :=
  [0x53; 0x75; 0x72; 0x61; 0x68; 0x20; 0x22] ++ name
  ++ [0x22; 0x20; 0x6E; 0x6F; 0x74; 0x20; 0x66; 0x6F; 0x75; 0x6E; 0x64;
      0x20; 0x69; 0x6E; 0x20; 0x64; 0x61; 0x74; 0x61].

(** [loadSurah(name)] (part_002 lines 76-89): the values of the [error]
    and [data] states once it has run. *)
Definition loadSurah {S : Type} (nameOf : S -> str)
           (allSurahsData : list S) (name : str)
  : option str * option S :=
  match mapGet (surahByName nameOf allSurahsData) name with
  | None => (Some (notFound name), None)
  | Some surah => (None, Some surah)
  end.

(* ================================================================== *)
(** ** The text sent for the numeric values *)
(* ================================================================== *)

(** [text.replace(/\n/g, ' ')] *)
Definition replaceNewlines (text : str) : str :=
  map (fun ch => if ch =? 0x0A then SPACE else ch) text.

(** [text.replace(/\s+/g, ' ')]: every maximal run of white space becomes
    one space.  [inRun] tells that the previous character belonged to the
    run being replaced. *)
Fixpoint collapseWhiteSpace (inRun : bool) (text : str) : str :=
  match text with
  | [] => []
  | ch :: text' =>
      if isWhiteSpace ch
      then (if inRun then [] else [SPACE]) ++ collapseWhiteSpace true text'
      else ch :: collapseWhiteSpace false text'
  end.

(** [cleanText] of [fetchNumericalData] (scrape-numerical.mjs line 32). *)
Definition cleanText (text : str) : str :=
  trim (collapseWhiteSpace false (replaceNewlines text)).

(* ================================================================== *)
(** ** Notions used to state the further properties *)
(* ================================================================== *)

(** A digit of any of the three alphabets the decoder reads: ASCII,
    Arabic-Indic, Extended Arabic-Indic. *)
Definition isAnyDigit (c : Z) : bool := isAsciiDigit c || isArabicIndicDigit c.

(** Its value. *)
Definition anyDigitOf (c : Z) : Z :=
  if isAsciiDigit c then c - 0x30 else digitOf c.

(** A document in the format the batch script describes: for each verse
    its text, a white-space character, its number and a white-space
    character. *)
Definition verseItem (w1 w2 : Z) (v : Verse) : str :=
  text v ++ [w1] ++ numberToArabicIndic (number v) ++ [w2].

(** No two white-space characters in a row. *)
Definition singleSpaced (s : str) : Prop :=
  forall l1 a b l2, s = l1 ++ a :: b :: l2 ->
                    isWhiteSpace a && isWhiteSpace b = false.

(** The only white-space character of [s] is the space. *)
Definition plainSpaces (s : str) : Prop :=
  forall ch, In ch s -> isWhiteSpace ch = true -> ch = SPACE.

(** The characters of [s] that are not white space, in order. *)
Definition inkOf (s : str) : str := filter (fun ch => negb (isWhiteSpace ch)) s.

(** A character may stand in the text of the loop or of a unit if it is a
    character of the content or, under the mid-stream convention, the space
    that the routine itself inserts. *)
Definition allowed (c : convention) (content : str) (ch : Z) : Prop :=
  In ch content \/ (c = MID_STREAM /\ ch = SPACE).

(** [p] records a match of the pattern in [fullText]: a white-space
    character, a numeral of value [num p], a white-space character, found
    at [index p]. *)
Definition markerAt (fullText : str) (p : position) : Prop :=
  exists w run w2,
    fullMatch p = w :: run ++ [w2]
    /\ isWhiteSpace w = true /\ isWhiteSpace w2 = true
    /\ isVerseNum run = true
    /\ arabicIndicToNumber run = Fin (num p)
    /\ skipn (index p) fullText
       = fullMatch p ++ skipn (matchEnd p) fullText
    /\ (matchEnd p <= length fullText)%nat.

(** The positions are matches of [fullText] that follow one another
    without overlap between [start] and [stop]. *)
Fixpoint placed (fullText : str) (start : nat) (positions : list position)
         (stop : nat) : Prop :=
  match positions with
  | [] => (start <= stop)%nat
  | p :: positions' =>
      (start <= index p)%nat /\ markerAt fullText p
      /\ placed fullText (matchEnd p) positions' stop
  end.

(* ================================================================== *)
(** ** Characters *)
(* ================================================================== *)


Lemma digit_not_space c : isArabicIndicDigit c = true -> isWhiteSpace c = false.
Proof. unfold isArabicIndicDigit, isWhiteSpace. lia. Qed.

Lemma ascii_digit_not_space c : isAsciiDigit c = true -> isWhiteSpace c = false.
Proof. unfold isAsciiDigit, isWhiteSpace. lia. Qed.

Lemma digitOf_range c : isArabicIndicDigit c = true -> 0 <= digitOf c <= 9.
Proof.
  unfold isArabicIndicDigit, digitOf.
  destruct (Z.ltb_spec c 0x6F0); lia.
Qed.

Lemma toAscii_digit c :
  isArabicIndicDigit c = true -> toAscii c = 0x30 + digitOf c.
Proof.
  intros H.
  assert (Hin : In c (map fst arabicIndicDigits)).
  { unfold isArabicIndicDigit in H. simpl. lia. }
  simpl in Hin.
  repeat (destruct Hin as [<- | Hin]; [reflexivity |]).
  contradiction.
Qed.

Lemma toAscii_isAscii c :
  isArabicIndicDigit c = true -> isAsciiDigit (toAscii c) = true.
Proof.
  intros H. rewrite (toAscii_digit _ H).
  pose proof (digitOf_range _ H). unfold isAsciiDigit. lia.
Qed.

Lemma digitValue_ascii c :
  isAsciiDigit c = true -> digitValue 10 c = Some (c - 0x30).
Proof.
  unfold isAsciiDigit, digitValue. intros H.
  replace ((0x30 <=? c) && (c <=? 0x39)) with true by lia.
  replace (c - 0x30 <? 10) with true by lia. reflexivity.
Qed.

(* ================================================================== *)
(** ** [parseInt] on strings of digits *)
(* ================================================================== *)

Lemma parseDigits_ascii ds :
  forallb isAsciiDigit ds = true ->
  forall a seen, seen = true \/ ds <> [] ->
  parseDigits 10 a seen ds = Some (asciiValue a ds).
Proof.
  induction ds as [| c ds IH]; intros Hall a seen Hne.
  - destruct Hne as [-> | Hne]; [reflexivity | congruence].
  - simpl in Hall. apply andb_true_iff in Hall as [Hc Hds].
    simpl. rewrite (digitValue_ascii _ Hc).
    apply IH; auto.
Qed.

Lemma trimStart_head c s :
  isWhiteSpace c = false -> trimStart (c :: s) = c :: s.
Proof. intros H. simpl. now rewrite H. Qed.

Lemma parseInt_digits ds :
  ds <> [] -> forallb isAsciiDigit ds = true ->
  parseInt ds = roundNat (asciiValue 0 ds).
Proof.
  intros Hne Hall.
  destruct ds as [| c0 t]; [congruence |].
  pose proof Hall as Hall'.
  simpl in Hall'. apply andb_true_iff in Hall' as [Hc0 Ht].
  unfold parseInt.
  rewrite (trimStart_head _ _ (ascii_digit_not_space _ Hc0)).
  assert (E1 : (c0 =? 0x2D) = false) by (unfold isAsciiDigit in Hc0; lia).
  assert (E2 : (c0 =? 0x2B) = false) by (unfold isAsciiDigit in Hc0; lia).
  rewrite E1, E2.
  cbv beta iota.
  assert (E3 : parseDigits 10 0 false (c0 :: t)
               = Some (asciiValue 0 (c0 :: t)))
    by (apply parseDigits_ascii; [assumption | right; discriminate]).
  destruct t as [| c1 t'].
  - now rewrite E3.
  - simpl in Ht. apply andb_true_iff in Ht as [Hc1 _].
    replace ((c1 =? 0x78) || (c1 =? 0x58)) with false
      by (unfold isAsciiDigit in Hc1; lia).
    rewrite andb_false_r. now rewrite E3.
Qed.

Lemma asciiValue_toAscii s :
  forallb isArabicIndicDigit s = true ->
  forall a, asciiValue a (map toAscii s)
            = fold_left (fun acc c => acc * 10 + digitOf c) s a.
Proof.
  induction s as [| c s IH]; intros Hall a; [reflexivity |].
  simpl in Hall. apply andb_true_iff in Hall as [Hc Hs].
  simpl. unfold asciiValue in *. simpl.
  rewrite (toAscii_digit _ Hc), IH by assumption.
  f_equal. lia.
Qed.

Lemma map_toAscii_isAscii s :
  forallb isArabicIndicDigit s = true ->
  forallb isAsciiDigit (map toAscii s) = true.
Proof.
  induction s as [| c s IH]; simpl; [reflexivity |].
  intros H. apply andb_true_iff in H as [Hc Hs].
  now rewrite (toAscii_isAscii _ Hc), IH.
Qed.

(** ** The decoder reads a numeral string as a decimal number *)

Lemma arabicIndicToNumber_digits s :
  s <> [] -> forallb isArabicIndicDigit s = true ->
  arabicIndicToNumber s = roundNat (composeBase10 s).
Proof.
  intros Hne Hall. unfold arabicIndicToNumber, composeBase10.
  rewrite parseInt_digits.
  - now rewrite asciiValue_toAscii.
  - destruct s; [congruence | discriminate].
  - now apply map_toAscii_isAscii.
Qed.

Lemma roundNat_small v : v < 2 ^ 53 -> roundNat v = Fin v.
Proof.
  intros H. unfold roundNat.
  destruct (Z.ltb_spec v (2 ^ 53)); [reflexivity | lia].
Qed.

(* ================================================================== *)
(** ** Printing a number in decimal *)
(* ================================================================== *)

Lemma asciiValue_app a ds es :
  asciiValue a (ds ++ es) = asciiValue (asciiValue a ds) es.
Proof. unfold asciiValue. apply fold_left_app. Qed.

Lemma digitsOf_S f v acc :
  digitsOf (S f) v acc
  = if v <? 10 then (0x30 + v mod 10) :: acc
    else digitsOf f (v / 10) ((0x30 + v mod 10) :: acc).
Proof. reflexivity. Qed.

Lemma digitsOf_spec fuel :
  forall v acc, 0 <= v < 2 ^ Z.of_nat (S fuel) ->
  exists ds,
    digitsOf (S fuel) v acc = ds ++ acc /\ ds <> []
    /\ forallb isAsciiDigit ds = true
    /\ (forall a, asciiValue a ds = a * 10 ^ Z.of_nat (length ds) + v)
    /\ v < 10 ^ Z.of_nat (length ds)
    /\ (0 < v -> 10 ^ Z.of_nat (length ds) <= 10 * v).
Proof.
  induction fuel as [| f IH]; intros v acc Hv; rewrite digitsOf_S;
    destruct (Z.ltb_spec v 10) as [Hlt | Hge].
  1, 3: exists [0x30 + v mod 10]; rewrite Z.mod_small by lia;
    repeat split;
    [ discriminate
    | cbn [forallb]; unfold isAsciiDigit; lia
    | intros a; unfold asciiValue; cbn [fold_left length]; lia
    | cbn [length]; lia
    | cbn [length]; lia ].
  - change (2 ^ Z.of_nat 1) with 2 in Hv. lia.
  - assert (Hq : 0 <= v / 10 < 2 ^ Z.of_nat (S f)).
    { split; [apply Z.div_pos; lia |].
      rewrite (Nat2Z.inj_succ (S f)), Z.pow_succ_r in Hv by lia.
      apply Z.div_lt_upper_bound; lia. }
    destruct (IH (v / 10) ((0x30 + v mod 10) :: acc) Hq)
      as (ds & E & Hne & Hall & Hval & Hlt & Hlow).
    exists (ds ++ [0x30 + v mod 10]).
    pose proof (Z.mod_pos_bound v 10 ltac:(lia)) as Hm.
    pose proof (Z.div_mod v 10 ltac:(lia)) as Hdm.
    repeat split.
    + rewrite E, <- app_assoc. reflexivity.
    + destruct ds; discriminate.
    + rewrite forallb_app, Hall. cbn [forallb]. unfold isAsciiDigit. lia.
    + intros a. rewrite asciiValue_app, Hval.
      rewrite length_app, Nat2Z.inj_add. cbn [length].
      rewrite Z.pow_add_r by lia. unfold asciiValue. cbn [fold_left].
      change (10 ^ Z.of_nat 1) with 10. lia.
    + rewrite length_app, Nat2Z.inj_add. cbn [length].
      rewrite Z.pow_add_r by lia. change (10 ^ Z.of_nat 1) with 10. lia.
    + intros _. rewrite length_app, Nat2Z.inj_add. cbn [length].
      rewrite Z.pow_add_r by lia. change (10 ^ Z.of_nat 1) with 10. lia.
Qed.

Lemma decimal_spec v :
  0 <= v ->
  decimal v <> []
  /\ forallb isAsciiDigit (decimal v) = true
  /\ asciiValue 0 (decimal v) = v
  /\ v < 10 ^ Z.of_nat (length (decimal v))
  /\ (0 < v -> 10 ^ Z.of_nat (length (decimal v)) <= 10 * v).
Proof.
  intros Hv. unfold decimal.
  assert (Hb : 0 <= v < 2 ^ Z.of_nat (S (Z.to_nat (Z.log2 v)))).
  { split; [assumption |].
    rewrite Nat2Z.inj_succ, Z2Nat.id by apply Z.log2_nonneg.
    destruct (Z.eq_dec v 0) as [-> | Hnz]; [reflexivity |].
    apply Z.log2_spec. lia. }
  destruct (digitsOf_spec _ v [] Hb)
    as (ds & E & Hne & Hall & Hval & Hlt & Hlow).
  rewrite app_nil_r in E. rewrite E.
  split; [assumption |]. split; [assumption |].
  split; [rewrite Hval; lia | split; assumption].
Qed.

Lemma asciiValue_zeros m a :
  asciiValue a (repeat 0x30 m) = a * 10 ^ Z.of_nat m.
Proof.
  revert a. induction m as [| m IH]; intros a.
  - simpl. unfold asciiValue. simpl. lia.
  - cbn [repeat]. unfold asciiValue in *. cbn [fold_left].
    rewrite IH, Nat2Z.inj_succ, Z.pow_succ_r by lia. lia.
Qed.

Lemma forallb_repeat {A} (p : A -> bool) x m :
  p x = true -> forallb p (repeat x m) = true.
Proof. intros H. induction m; simpl; [reflexivity | now rewrite H]. Qed.

(* ================================================================== *)
(** ** The digit search of [String(x)] converts back to [x] *)
(* ================================================================== *)

Lemma strictEq_Fin a x : strictEq a (Fin x) = true -> a = Fin x.
Proof.
  destruct a; simpl; try discriminate.
  intros H. apply Z.eqb_eq in H. now subst.
Qed.

Lemma suitable_spec x n k s :
  suitable x n k s = true ->
  10 ^ (k - 1) <= s /\ roundNat (s * 10 ^ (n - k)) = Fin x.
Proof.
  unfold suitable. intros H.
  apply andb_true_iff in H as [H H3]. apply andb_true_iff in H as [H1 H2].
  split; [lia | now apply strictEq_Fin].
Qed.

Lemma candidate_spec x n k s :
  candidate x n k = Some s ->
  10 ^ (k - 1) <= s /\ roundNat (s * 10 ^ (n - k)) = Fin x.
Proof.
  unfold candidate.
  destruct (suitable x n k (x / 10 ^ (n - k))) eqn:Elo;
    destruct (suitable x n k (x / 10 ^ (n - k) + 1)) eqn:Ehi;
    intros H; inversion H; subst; clear H;
    try (now apply suitable_spec).
  repeat match goal with
         | |- context [if ?b then _ else _] => destruct b
         end; now apply suitable_spec.
Qed.

Lemma search_spec x n :
  isNumberValue x -> 0 < x ->
  forall fuel k k' s,
    1 <= k -> k + Z.of_nat fuel = n ->
    search x n fuel k = (k', s) ->
    1 <= k' <= n /\ 0 < s /\ roundNat (s * 10 ^ (n - k')) = Fin x.
Proof.
  intros Hx Hpos.
  induction fuel as [| f IH]; intros k k' s Hk Hn E; simpl in E.
  - inversion E; subst. rewrite Z.sub_diag, Z.mul_1_r.
    repeat split; try lia. exact Hx.
  - destruct (candidate x n k) as [s0 |] eqn:Ec.
    + inversion E; subst. apply candidate_spec in Ec as [Hlow Hr].
      assert (0 < 10 ^ (k' - 1)) by (apply Z.pow_pos_nonneg; lia).
      repeat split; try lia. exact Hr.
    + apply IH in E; [| lia | lia].
      destruct E as (? & ? & ?). repeat split; try lia. assumption.
Qed.

Lemma pow10_isNumberValue m : 0 <= m <= 22 -> isNumberValue (10 ^ m).
Proof.
  intros H. unfold isNumberValue.
  assert (Hin : In m (map Z.of_nat (seq 0 23))) by (simpl; lia).
  simpl in Hin.
  repeat (destruct Hin as [<- | Hin]; [vm_compute; reflexivity |]).
  contradiction.
Qed.

(** Below [10^21] the string of a number is made of decimal digits only,
    and reading them back gives a value that converts to the number. *)
Lemma toString_plain x :
  isNumberValue x -> 0 <= x < 10 ^ 21 ->
  toString x <> []
  /\ forallb isAsciiDigit (toString x) = true
  /\ roundNat (asciiValue 0 (toString x)) = Fin x.
Proof.
  intros Hx Hr. unfold toString.
  destruct (Z.ltb_spec x 0) as [Hneg | _]; [lia |].
  destruct (Z.eqb_spec x 0) as [-> | Hnz].
  { repeat split; discriminate || reflexivity. }
  assert (Hpos : 0 < x) by lia.
  destruct (decimal_spec x ltac:(lia)) as (_ & _ & _ & Hub & Hlb).
  specialize (Hlb Hpos).
  set (nx := Z.of_nat (length (decimal x))) in *.
  assert (Hnx : 1 <= nx <= 21).
  { split.
    - destruct (Z.le_gt_cases nx 0) as [Hle | ?]; [| lia].
      assert (10 ^ nx <= 10 ^ 0) by (apply Z.pow_le_mono_r; lia).
      change (10 ^ 0) with 1 in *. lia.
    - destruct (Z.le_gt_cases nx 21) as [? | Hgt]; [lia |].
      assert (10 ^ 22 <= 10 ^ nx) by (apply Z.pow_le_mono_r; lia).
      change (10 ^ 22) with (10 * 10 ^ 21) in *. lia. }
  unfold shortest. fold nx.
  destruct (strictEq (roundNat (10 ^ nx)) (Fin x)) eqn:Epow.
  { apply strictEq_Fin in Epow.
    rewrite (pow10_isNumberValue nx) in Epow by lia.
    inversion Epow. lia. }
  destruct (search x nx (Z.to_nat (nx - 1)) 1) as [k s] eqn:Es.
  apply (search_spec x nx Hx Hpos) in Es as (Hk & Hs & Hround);
    [| lia | rewrite Z2Nat.id; lia].
  destruct (Z.leb_spec nx 21) as [_ | ?]; [| lia].
  destruct (decimal_spec s ltac:(lia)) as (Hne & Hall & Hval & _).
  split; [destruct (decimal s); [congruence | discriminate] |].
  split.
  - rewrite forallb_app, Hall. now apply forallb_repeat.
  - rewrite asciiValue_app, Hval, asciiValue_zeros, Z2Nat.id by lia.
    exact Hround.
Qed.

(* ================================================================== *)
(** ** [numberToArabicIndic] and back *)
(* ================================================================== *)

Lemma digitFor_ascii d :
  isAsciiDigit d = true -> digitFor d = Some (0x660 + (d - 0x30)).
Proof.
  intros H.
  assert (Hin : In d (map (fun i => 0x30 + Z.of_nat i) (seq 0 10)))
    by (unfold isAsciiDigit in H; simpl; lia).
  simpl in Hin.
  repeat (destruct Hin as [<- | Hin]; [reflexivity |]).
  contradiction.
Qed.

Lemma arabic_of_ascii d :
  isAsciiDigit d = true ->
  isArabicIndicDigit (0x660 + (d - 0x30)) = true
  /\ toAscii (0x660 + (d - 0x30)) = d.
Proof.
  intros H.
  assert (Hd : isArabicIndicDigit (0x660 + (d - 0x30)) = true)
    by (unfold isAsciiDigit in H; unfold isArabicIndicDigit; lia).
  split; [assumption |].
  rewrite (toAscii_digit _ Hd). unfold digitOf.
  unfold isAsciiDigit in H.
  destruct (Z.ltb_spec (0x660 + (d - 0x30)) 0x6F0); lia.
Qed.

Lemma markers_of_ascii ds :
  forallb isAsciiDigit ds = true ->
  let m := flat_map (fun d => match digitFor d with
                              | Some c => [c]
                              | None => []
                              end) ds in
  forallb isArabicIndicDigit m = true /\ map toAscii m = ds
  /\ length m = length ds.
Proof.
  induction ds as [| d ds IH]; intros Hall; [repeat split |].
  simpl in Hall. apply andb_true_iff in Hall as [Hd Hds].
  destruct (IH Hds) as (IH1 & IH2 & IH3).
  destruct (arabic_of_ascii _ Hd) as [Ha Hb].
  cbn [flat_map]. rewrite (digitFor_ascii _ Hd).
  cbn [app forallb map length]. rewrite Ha, Hb.
  repeat split; [exact IH1 | now f_equal | now f_equal].
Qed.

(** The marker printed for a number below [10^21] is a non-empty string
    of Arabic-Indic digits that decodes to the number. *)
Lemma numberToArabicIndic_spec n :
  isNumberValue n -> 0 <= n < 10 ^ 21 ->
  numberToArabicIndic n <> []
  /\ forallb isArabicIndicDigit (numberToArabicIndic n) = true
  /\ arabicIndicToNumber (numberToArabicIndic n) = Fin n.
Proof.
  intros Hn Hr.
  destruct (toString_plain n Hn Hr) as (Hne & Hall & Hval).
  destruct (markers_of_ascii _ Hall) as (Hd & Hmap & Hlen).
  fold (numberToArabicIndic n) in Hd, Hmap, Hlen.
  split; [| split].
  - intros E. rewrite E in Hlen. simpl in Hlen.
    destruct (toString n); [congruence | discriminate].
  - exact Hd.
  - unfold arabicIndicToNumber. rewrite Hmap.
    rewrite parseInt_digits by assumption. exact Hval.
Qed.

(* ================================================================== *)
(** ** [trim] *)
(* ================================================================== *)

Lemma trimStart_startsClean s : startsClean (trimStart s) = true.
Proof.
  induction s as [| c s IH]; [reflexivity |].
  simpl. destruct (isWhiteSpace c) eqn:E; [exact IH |].
  simpl. now rewrite E.
Qed.

Lemma trimStart_id s : startsClean s = true -> trimStart s = s.
Proof.
  destruct s as [| c s]; [reflexivity |].
  simpl. now destruct (isWhiteSpace c).
Qed.

Lemma trimStart_suffix s :
  exists pre, s = pre ++ trimStart s /\ blank pre = true.
Proof.
  induction s as [| c s (pre & IH & Hb)]; [now exists [] |].
  simpl. destruct (isWhiteSpace c) eqn:E.
  - exists (c :: pre). simpl. rewrite E, Hb. split; [now f_equal | easy].
  - now exists [].
Qed.

Lemma startsClean_prefix s t :
  startsClean (s ++ t) = true -> s <> [] -> startsClean s = true.
Proof. destruct s; [congruence | trivial]. Qed.

Lemma trim_trimmed s : trimmed (trim s) = true.
Proof.
  unfold trim, trimEnd, trimmed.
  set (u := trimStart s). set (v := trimStart (rev u)).
  rewrite rev_involutive.
  assert (Hv : startsClean v = true) by apply trimStart_startsClean.
  rewrite Hv, andb_true_r.
  destruct (trimStart_suffix (rev u)) as (pre & E & _). fold v in E.
  destruct (rev v) as [| c w] eqn:Ev; [reflexivity |].
  apply (startsClean_prefix (c :: w) (rev pre)); [| discriminate].
  rewrite <- Ev, <- rev_app_distr, <- E, rev_involutive.
  apply trimStart_startsClean.
Qed.

Lemma trim_id t : trimmed t = true -> trim t = t.
Proof.
  unfold trimmed, trim, trimEnd. intros H.
  apply andb_true_iff in H as [H1 H2].
  now rewrite (trimStart_id _ H1), (trimStart_id _ H2), rev_involutive.
Qed.

Lemma trimStart_blank s : blank s = true -> trimStart s = [].
Proof.
  induction s as [| c s IH]; [reflexivity |].
  simpl. intros H. apply andb_true_iff in H as [Hc Hs].
  rewrite Hc. now apply IH.
Qed.

Lemma trim_blank s : blank s = true -> trim s = [].
Proof.
  intros H. unfold trim, trimEnd. now rewrite (trimStart_blank _ H).
Qed.

Lemma trimStart_nonblank s :
  blank s = false -> trimStart s <> [].
Proof.
  induction s as [| c s IH]; [discriminate |].
  simpl. destruct (isWhiteSpace c); [exact IH | discriminate].
Qed.

Lemma blank_rev s : blank (rev s) = blank s.
Proof.
  unfold blank. induction s as [| c s IH]; [reflexivity |].
  simpl. rewrite forallb_app, IH. simpl.
  now rewrite andb_true_r, andb_comm.
Qed.

Lemma blank_app s t : blank (s ++ t) = blank s && blank t.
Proof. apply forallb_app. Qed.

Lemma trim_nonblank s : blank s = false -> truthy (trim s) = true.
Proof.
  intros H. unfold trim, trimEnd.
  assert (Hu : blank (trimStart s) = false).
  { pose proof (trimStart_nonblank _ H) as Hne.
    pose proof (trimStart_startsClean s) as Hc.
    destruct (trimStart s) as [| c w]; [congruence |].
    simpl in *. now destruct (isWhiteSpace c). }
  rewrite <- blank_rev in Hu.
  apply trimStart_nonblank in Hu.
  destruct (trimStart (rev (trimStart s))) as [| c w]; [congruence |].
  simpl. now destruct (rev w).
Qed.

(* ================================================================== *)
(** ** Matching a marker *)
(* ================================================================== *)

Lemma digitRun_spec s :
  forall run rest, digitRun s = (run, rest) ->
  s = run ++ rest /\ forallb isArabicIndicDigit run = true
  /\ startsDigit rest = false.
Proof.
  induction s as [| c s IH]; intros run rest E; simpl in E.
  - inversion E. repeat split.
  - destruct (isArabicIndicDigit c) eqn:Ec.
    + destruct (digitRun s) as [run' rest'].
      inversion E; subst. destruct (IH _ _ eq_refl) as (-> & Hall & Hr).
      simpl. rewrite Ec. repeat split; assumption.
    + inversion E; subst. simpl. rewrite Ec. repeat split.
Qed.

Lemma digitRun_app run rest :
  forallb isArabicIndicDigit run = true -> startsDigit rest = false ->
  digitRun (run ++ rest) = (run, rest).
Proof.
  intros Hall Hr. induction run as [| c run IH]; simpl.
  - destruct rest as [| x rest]; [reflexivity |].
    simpl in Hr. simpl. now rewrite Hr.
  - simpl in Hall. apply andb_true_iff in Hall as [Hc Hall].
    now rewrite Hc, (IH Hall).
Qed.

Lemma matchMarker_spec s capture rest :
  matchMarker s = Some (capture, rest) ->
  isVerseNum capture = true /\ (length rest < length s)%nat.
Proof.
  unfold matchMarker. destruct (digitRun s) as [run rest'] eqn:E.
  apply digitRun_spec in E as (-> & Hall & _).
  destruct run as [| c run]; [discriminate |].
  destruct rest' as [| w rest'].
  - intros H; inversion H; subst. unfold isVerseNum. rewrite Hall.
    split; [reflexivity |]. rewrite length_app. simpl. lia.
  - destruct (isWhiteSpace w); [| discriminate].
    intros H; inversion H; subst. unfold isVerseNum. rewrite Hall.
    split; [reflexivity |]. rewrite length_app. simpl. lia.
Qed.

Lemma matchAt_spec c s capture rest :
  matchAt c s = Some (capture, rest) ->
  isVerseNum capture = true /\ (length rest < length s)%nat.
Proof.
  destruct c; simpl.
  - destruct s as [| w s']; [discriminate |].
    destruct (isWhiteSpace w); [| discriminate].
    intros H. apply matchMarker_spec in H as [H1 H2].
    split; [assumption | simpl; lia].
  - apply matchMarker_spec.
Qed.

Lemma matchMarker_no_digit s : startsDigit s = false -> matchMarker s = None.
Proof.
  unfold matchMarker. destruct s as [| x s]; [reflexivity |].
  simpl. now intros ->.
Qed.

(** A marker followed by the end of the input or by a white-space
    character is matched whole. *)
Lemma matchMarker_marker m rest :
  m <> [] -> forallb isArabicIndicDigit m = true ->
  startsClean rest = false \/ rest = [] ->
  matchMarker (m ++ rest) = Some (m, tl rest).
Proof.
  intros Hne Hall Hrest. unfold matchMarker.
  rewrite digitRun_app; [| assumption |].
  - destruct m as [| c m]; [congruence |].
    destruct rest as [| w rest]; [reflexivity |].
    destruct Hrest as [Hw | ?]; [| discriminate].
    simpl in Hw. apply negb_false_iff in Hw. now rewrite Hw.
  - destruct rest as [| w rest]; [reflexivity |].
    destruct Hrest as [Hw | ?]; [| discriminate].
    simpl in Hw. apply negb_false_iff in Hw. simpl.
    destruct (isArabicIndicDigit w) eqn:Ew; [| reflexivity].
    apply digit_not_space in Ew. congruence.
Qed.

(* ================================================================== *)
(** ** The loop of [split] finishes *)
(* ================================================================== *)

Lemma splitLoop_S c fuel T s :
  splitLoop c (S fuel) T s
  = match s with
    | [] => Some [T]
    | ch :: s' =>
        match matchAt c s with
        | Some (capture, rest) =>
            match splitLoop c fuel [] rest with
            | Some A => Some (T :: capture :: A)
            | None => None
            end
        | None => splitLoop c fuel (T ++ [ch]) s'
        end
    end.
Proof. reflexivity. Qed.

Lemma splitLoop_fuel c n :
  forall fuel1 fuel2 T s,
    (length s <= n)%nat ->
    (length s < fuel1)%nat -> (length s < fuel2)%nat ->
    splitLoop c fuel1 T s = splitLoop c fuel2 T s.
Proof.
  induction n as [| n IH]; intros fuel1 fuel2 T s Hn H1 H2;
    (destruct fuel1 as [| f1]; [lia |]);
    (destruct fuel2 as [| f2]; [lia |]);
    (destruct s as [| ch s']; [reflexivity |]); simpl in Hn; [lia |].
  rewrite !splitLoop_S.
  destruct (matchAt c (ch :: s')) as [[capture rest] |] eqn:Em.
  - apply matchAt_spec in Em as [_ Hlen]. simpl in *.
    rewrite (IH f1 f2 [] rest); [reflexivity | lia | lia | lia].
  - simpl in *. apply IH; lia.
Qed.

Lemma splitFrom_fuel c fuel T s :
  (length s < fuel)%nat -> splitLoop c fuel T s = splitFrom c T s.
Proof.
  intros H. unfold splitFrom.
  apply (splitLoop_fuel c (length s)); lia.
Qed.

Lemma splitFrom_nil c T : splitFrom c T [] = Some [T].
Proof. reflexivity. Qed.

Lemma splitFrom_match c T s capture rest :
  matchAt c s = Some (capture, rest) ->
  splitFrom c T s = match splitFrom c [] rest with
                    | Some A => Some (T :: capture :: A)
                    | None => None
                    end.
Proof.
  intros Em. pose proof (matchAt_spec _ _ _ _ Em) as [_ Hlen].
  destruct s as [| ch s']; [simpl in Hlen; lia |].
  unfold splitFrom at 1. rewrite splitLoop_S, Em.
  rewrite splitFrom_fuel by exact Hlen. reflexivity.
Qed.

Lemma splitFrom_skip1 c T ch s :
  matchAt c (ch :: s) = None ->
  splitFrom c T (ch :: s) = splitFrom c (T ++ [ch]) s.
Proof.
  intros Em. unfold splitFrom at 1. rewrite splitLoop_S, Em.
  apply splitFrom_fuel. simpl. lia.
Qed.

Lemma splitFrom_total c s :
  forall T, exists parts, splitFrom c T s = Some parts.
Proof.
  remember (length s) as n eqn:Hn.
  revert s Hn. induction n as [n IH] using lt_wf_ind. intros s Hn T.
  destruct s as [| ch s']; [now exists [T] |].
  destruct (matchAt c (ch :: s')) as [[capture rest] |] eqn:Em.
  - rewrite (splitFrom_match _ _ _ _ _ Em).
    apply matchAt_spec in Em as [_ Hlen].
    destruct (IH (length rest) ltac:(lia) rest eq_refl []) as [A ->].
    now eexists.
  - rewrite (splitFrom_skip1 _ _ _ _ Em).
    apply (IH (length s')); [subst; simpl; lia | reflexivity].
Qed.

(** Text in which no position matches is skipped as a whole. *)
Lemma splitFrom_skip c a :
  forall T s,
    (forall a1 a2, a = a1 ++ a2 -> a2 <> [] -> matchAt c (a2 ++ s) = None) ->
    splitFrom c T (a ++ s) = splitFrom c (T ++ a) s.
Proof.
  induction a as [| ch a IH]; intros T s H.
  - now rewrite app_nil_r.
  - cbn [app]. rewrite splitFrom_skip1.
    + rewrite IH.
      * now rewrite <- app_assoc.
      * intros a1 a2 E Hne. apply (H (ch :: a1) a2); [| assumption].
        simpl. now f_equal.
    + apply (H [] (ch :: a)); [reflexivity | discriminate].
Qed.

(* ================================================================== *)
(** ** Increasing and consecutive numbers *)
(* ================================================================== *)

Lemma ascending_weaken ns : forall lo hi hi',
  ascending lo ns hi -> hi <= hi' -> ascending lo ns hi'.
Proof.
  induction ns as [| n ns IH]; simpl; intros lo hi hi' H Hle; [lia |].
  destruct H as [H1 H2]. split; [assumption | now apply (IH _ hi)].
Qed.

Lemma ascending_snoc ns : forall lo e,
  ascending lo ns e -> ascending lo (ns ++ [e]) (e + 1).
Proof.
  induction ns as [| n ns IH]; simpl; intros lo e H; [lia |].
  destruct H as [H1 H2]. split; [assumption | now apply IH].
Qed.

Lemma ascending_bounds ns : forall lo hi,
  ascending lo ns hi -> Forall (fun n => lo <= n < hi) ns /\ lo <= hi.
Proof.
  induction ns as [| n ns IH]; simpl; intros lo hi H; [now split |].
  destruct H as [H1 H2]. destruct (IH _ _ H2) as [Hall Hle].
  split; [| lia]. constructor; [lia |].
  eapply Forall_impl; [| exact Hall]. simpl. intros; lia.
Qed.

Lemma ascending_sorted ns : forall lo hi,
  ascending lo ns hi -> StronglySorted Z.lt ns.
Proof.
  induction ns as [| n ns IH]; simpl; intros lo hi H; [constructor |].
  destruct H as [H1 H2]. constructor; [now apply (IH (n + 1) hi) |].
  destruct (ascending_bounds _ _ _ H2) as [Hall _].
  eapply Forall_impl; [| exact Hall]. simpl. intros; lia.
Qed.

Lemma ascending_nth ns : forall lo hi i n,
  ascending lo ns hi -> nth_error ns i = Some n -> lo + Z.of_nat i <= n.
Proof.
  induction ns as [| m ns IH]; intros lo hi i n H E.
  - destruct i; discriminate.
  - destruct H as [H1 H2]. destruct i as [| i]; simpl in E.
    + inversion E; subst. lia.
    + specialize (IH _ _ _ _ H2 E). lia.
Qed.

Lemma consecutive_snoc ns : forall lo e,
  consecutive lo ns e -> consecutive lo (ns ++ [e]) (e + 1).
Proof.
  induction ns as [| n ns IH]; simpl; intros lo e H.
  - subst. auto.
  - destruct H as [H1 H2]. split; [assumption | now apply IH].
Qed.

Lemma consecutive_nth ns : forall lo hi i n,
  consecutive lo ns hi -> nth_error ns i = Some n -> n = lo + Z.of_nat i.
Proof.
  induction ns as [| m ns IH]; intros lo hi i n H E.
  - destruct i; discriminate.
  - destruct H as [H1 H2]. destruct i as [| i]; simpl in E.
    + inversion E; subst. lia.
    + specialize (IH _ _ _ _ H2 E). lia.
Qed.

Lemma consecutive_length ns : forall lo hi,
  consecutive lo ns hi -> hi = lo + Z.of_nat (length ns).
Proof.
  induction ns as [| m ns IH]; simpl; intros lo hi H; [lia |].
  destruct H as [H1 H2]. specialize (IH _ _ H2). lia.
Qed.

(* ================================================================== *)
(** ** What the loop maintains *)
(* ================================================================== *)

Lemma numbers_app vs ws : numbers (vs ++ ws) = numbers vs ++ numbers ws.
Proof. apply map_app. Qed.

Lemma pushVerse_cases vs n t :
  (truthy t = true /\ pushVerse vs n t = vs ++ [mkVerse n t])
  \/ (truthy t = false /\ pushVerse vs n t = vs).
Proof. unfold pushVerse. destruct (truthy t); auto. Qed.

Lemma pushVerse_good vs e s :
  ascending 1 (numbers vs) e -> forallb goodVerse vs = true ->
  ascending 1 (numbers (pushVerse vs e (trim s))) (e + 1)
  /\ forallb goodVerse (pushVerse vs e (trim s)) = true.
Proof.
  intros Hb Hg.
  destruct (pushVerse_cases vs e (trim s)) as [[Ht ->] | [Ht ->]].
  - split.
    + rewrite numbers_app. now apply ascending_snoc.
    + rewrite forallb_app, Hg. simpl. unfold goodVerse. simpl.
      now rewrite Ht, trim_trimmed.
  - split; [apply (ascending_weaken _ _ e); [assumption | lia] | assumption].
Qed.

(** The three branches of the loop body. *)
Lemma step_cases c st part :
  (isVerseNum part = true
   /\ strictEq (arabicIndicToNumber part) (Fin (expectedVerseNum st)) = true
   /\ step c st part
      = mkState (pushVerse (verses st) (expectedVerseNum st)
                           (trim (currentText st)))
                [] (expectedVerseNum st + 1))
  \/ (isVerseNum part = true
      /\ strictEq (arabicIndicToNumber part) (Fin (expectedVerseNum st)) = false
      /\ step c st part
         = mkState (verses st) (appendRejected c (currentText st) part)
                   (expectedVerseNum st))
  \/ (isVerseNum part = false
      /\ step c st part
         = mkState (verses st) (appendText c (currentText st) part)
                   (expectedVerseNum st)).
Proof.
  unfold step. destruct (isVerseNum part); [| auto].
  destruct (strictEq _ _); auto.
Qed.

Lemma step_good c st part : goodState st -> goodState (step c st part).
Proof.
  intros [Hb Hg].
  destruct (step_cases c st part)
    as [(_ & _ & ->) | [(_ & _ & ->) | (_ & ->)]];
    unfold goodState; simpl; [| now split | now split].
  now apply pushVerse_good.
Qed.

Lemma scan_good c parts : forall st,
  goodState st -> goodState (scan c parts st).
Proof.
  induction parts as [| p parts IH]; intros st H; [assumption |].
  simpl. apply IH. now apply step_good.
Qed.

Lemma initial_good : goodState initial.
Proof. split; [simpl; lia | reflexivity]. Qed.

Lemma finish_good st :
  goodState st ->
  ascending 1 (numbers (finish st)) (expectedVerseNum st + 1)
  /\ forallb goodVerse (finish st) = true.
Proof. intros [Hb Hg]. now apply pushVerse_good. Qed.

Lemma In_trimStart x s :
  In x s -> isWhiteSpace x = false -> In x (trimStart s).
Proof.
  intros Hin Hx. destruct (trimStart_suffix s) as (pre & E & Hb).
  rewrite E in Hin. apply in_app_or in Hin as [Hin | Hin]; [| exact Hin].
  unfold blank in Hb. rewrite forallb_forall in Hb.
  rewrite (Hb _ Hin) in Hx. discriminate.
Qed.

(** [trim] keeps every character that is not white space. *)
Lemma In_trim x s : In x s -> isWhiteSpace x = false -> In x (trim s).
Proof.
  intros Hin Hx. unfold trim, trimEnd.
  rewrite <- in_rev. apply In_trimStart; [| exact Hx].
  rewrite <- in_rev. now apply In_trimStart.
Qed.

(** [parseVersesFromContent] always returns: the result of [split] and
    of the loop over it. *)
Lemma parse_unfold c content :
  exists parts,
    split c content = Some parts
    /\ parseVersesFromContent c content
       = Some (finish (scan c parts initial)).
Proof.
  destruct (splitFrom_total c content []) as [parts E].
  exists parts. unfold parseVersesFromContent.
  change (split c content) with (splitFrom c [] content).
  now rewrite E.
Qed.

(** Without dropped verses the numbers are consecutive. *)
Lemma step_consecutive c st part :
  consecutive 1 (numbers (verses st)) (expectedVerseNum st) ->
  closesEmpty st part = false ->
  consecutive 1 (numbers (verses (step c st part)))
              (expectedVerseNum (step c st part)).
Proof.
  intros Hc Hd.
  destruct (step_cases c st part)
    as [(Hv & Ha & ->) | [(_ & _ & ->) | (_ & ->)]]; simpl; try assumption.
  unfold closesEmpty in Hd. rewrite Hv, Ha in Hd. simpl in Hd.
  apply negb_false_iff in Hd. unfold pushVerse. rewrite Hd.
  rewrite numbers_app. now apply consecutive_snoc.
Qed.

Lemma scan_consecutive c parts : forall st,
  consecutive 1 (numbers (verses st)) (expectedVerseNum st) ->
  dropsNone c parts st = true ->
  consecutive 1 (numbers (verses (scan c parts st)))
              (expectedVerseNum (scan c parts st)).
Proof.
  induction parts as [| p parts IH]; intros st Hc Hd; [assumption |].
  simpl in Hd. apply andb_true_iff in Hd as [Hp Hd].
  apply negb_true_iff in Hp.
  simpl. apply IH; [now apply step_consecutive | assumption].
Qed.

Lemma finish_consecutive st :
  consecutive 1 (numbers (verses st)) (expectedVerseNum st) ->
  exists hi, consecutive 1 (numbers (finish st)) hi.
Proof.
  intros Hc. unfold finish.
  destruct (pushVerse_cases (verses st) (expectedVerseNum st)
                            (trim (currentText st))) as [[_ ->] | [_ ->]].
  - eexists. rewrite numbers_app. now apply consecutive_snoc.
  - eexists. eassumption.
Qed.

(* ================================================================== *)
(** ** Text without numerals *)
(* ================================================================== *)

Lemma noNumeral_app s t : noNumeral (s ++ t) = noNumeral s && noNumeral t.
Proof. apply forallb_app. Qed.

Lemma noNumeral_startsDigit s : noNumeral s = true -> startsDigit s = false.
Proof.
  destruct s as [| x s]; [reflexivity |]. simpl.
  intros H. apply andb_true_iff in H as [H _]. now apply negb_true_iff in H.
Qed.

Lemma blank_noNumeral s : blank s = true -> noNumeral s = true.
Proof.
  induction s as [| x s IH]; [reflexivity |]. simpl.
  intros H. apply andb_true_iff in H as [Hx Hs]. rewrite (IH Hs).
  destruct (isArabicIndicDigit x) eqn:E; [| reflexivity].
  apply digit_not_space in E. congruence.
Qed.

Lemma isVerseNum_noNumeral s : noNumeral s = true -> isVerseNum s = false.
Proof.
  destruct s as [| x s]; [reflexivity |]. simpl.
  intros H. apply andb_true_iff in H as [H _]. apply negb_true_iff in H.
  unfold isVerseNum. simpl. now rewrite H.
Qed.

Lemma matchAt_noNumeral c s : noNumeral s = true -> matchAt c s = None.
Proof.
  intros H. destruct c; simpl.
  - destruct s as [| w s]; [reflexivity |].
    simpl in H. apply andb_true_iff in H as [_ H].
    destruct (isWhiteSpace w); [| reflexivity].
    apply matchMarker_no_digit. now apply noNumeral_startsDigit.
  - apply matchMarker_no_digit. now apply noNumeral_startsDigit.
Qed.

Lemma splitFrom_noNumeral c s : forall T,
  noNumeral s = true -> splitFrom c T s = Some [T ++ s].
Proof.
  induction s as [| x s IH]; intros T H.
  - now rewrite splitFrom_nil, app_nil_r.
  - rewrite splitFrom_skip1 by now apply matchAt_noNumeral.
    simpl in H. apply andb_true_iff in H as [_ H].
    rewrite (IH _ H), <- app_assoc. reflexivity.
Qed.

(** Under the end-of-unit pattern a match starts with a digit, so text
    without numerals is skipped whatever follows it. *)
Lemma splitFrom_skip_end a T s :
  noNumeral a = true ->
  splitFrom END_OF_UNIT T (a ++ s) = splitFrom END_OF_UNIT (T ++ a) s.
Proof.
  intros H. apply splitFrom_skip. intros a1 a2 E Hne.
  subst a. rewrite noNumeral_app in H. apply andb_true_iff in H as [_ H].
  simpl. apply matchMarker_no_digit.
  destruct a2 as [| x a2]; [congruence |].
  apply noNumeral_startsDigit in H. exact H.
Qed.

(** Under the mid-stream pattern a match starts with white space followed
    by a digit: text without numerals is skipped when it does not end in
    white space, or when no digit follows it. *)
Lemma splitFrom_skip_mid a T s :
  noNumeral a = true ->
  startsClean (rev a) = true \/ startsDigit s = false ->
  splitFrom MID_STREAM T (a ++ s) = splitFrom MID_STREAM (T ++ a) s.
Proof.
  intros H Hend. apply splitFrom_skip. intros a1 a2 E Hne.
  subst a. rewrite noNumeral_app in H. apply andb_true_iff in H as [_ H].
  destruct a2 as [| x a3]; [congruence |]. simpl.
  destruct (isWhiteSpace x) eqn:Ex; [| reflexivity].
  apply matchMarker_no_digit.
  destruct a3 as [| y a3].
  - destruct Hend as [Hend | Hs]; [| exact Hs].
    rewrite rev_app_distr in Hend. simpl in Hend. now rewrite Ex in Hend.
  - simpl in H. apply andb_true_iff in H as [_ H].
    apply (noNumeral_startsDigit (y :: a3)) in H. exact H.
Qed.

(* ================================================================== *)
(** ** The loop body, branch by branch *)
(* ================================================================== *)

Lemma step_accept c st part :
  isVerseNum part = true ->
  arabicIndicToNumber part = Fin (expectedVerseNum st) ->
  step c st part
  = mkState (pushVerse (verses st) (expectedVerseNum st)
                       (trim (currentText st)))
            [] (expectedVerseNum st + 1).
Proof.
  intros Hv Hn. unfold step. rewrite Hv, Hn. simpl. now rewrite Z.eqb_refl.
Qed.

Lemma step_reject c st part :
  isVerseNum part = true ->
  strictEq (arabicIndicToNumber part) (Fin (expectedVerseNum st)) = false ->
  step c st part
  = mkState (verses st) (appendRejected c (currentText st) part)
            (expectedVerseNum st).
Proof. intros Hv Hn. unfold step. now rewrite Hv, Hn. Qed.

Lemma step_text c st part :
  isVerseNum part = false ->
  step c st part
  = mkState (verses st) (appendText c (currentText st) part)
            (expectedVerseNum st).
Proof. intros Hv. unfold step. now rewrite Hv. Qed.

Lemma appendText_empty c part : appendText c [] part = part.
Proof. destruct c; reflexivity. Qed.

(** Content without numerals: one unit, or none if it is blank. *)
Lemma parse_noNumeral c content :
  noNumeral content = true ->
  parseVersesFromContent c content
  = Some (if truthy (trim content) then [mkVerse 1 (trim content)] else []).
Proof.
  intros H. unfold parseVersesFromContent.
  change (split c content) with (splitFrom c [] content).
  rewrite (splitFrom_noNumeral _ _ _ H). simpl.
  rewrite step_text by now apply isVerseNum_noNumeral.
  unfold finish, pushVerse. simpl. now rewrite appendText_empty.
Qed.

(* ================================================================== *)
(** ** Segmenting a rebuilt text *)
(* ================================================================== *)

Lemma trim_snoc_space t :
  trimmed t = true -> truthy t = true -> trim (t ++ [SPACE]) = t.
Proof.
  unfold trimmed. intros H Ht. apply andb_true_iff in H as [H1 H2].
  destruct t as [| x t]; [discriminate |].
  unfold trim, trimEnd.
  rewrite (trimStart_id ((x :: t) ++ [SPACE])) by exact H1.
  rewrite rev_app_distr. cbn [rev app].
  change (trimStart (SPACE :: (rev t ++ [x])))
    with (trimStart (rev t ++ [x])).
  change (rev t ++ [x]) with (rev (x :: t)).
  now rewrite (trimStart_id _ H2), rev_involutive.
Qed.

Lemma marker_spec n :
  0 <= n < 2 ^ 53 ->
  isVerseNum (numberToArabicIndic n) = true
  /\ forallb isArabicIndicDigit (numberToArabicIndic n) = true
  /\ numberToArabicIndic n <> []
  /\ arabicIndicToNumber (numberToArabicIndic n) = Fin n.
Proof.
  intros H.
  destruct (numberToArabicIndic_spec n) as (Hne & Hall & Hval).
  - apply roundNat_small. lia.
  - assert (2 ^ 53 < 10 ^ 21) by reflexivity. lia.
  - repeat split; try assumption.
    unfold isVerseNum. rewrite Hall.
    destruct (numberToArabicIndic n); [congruence | reflexivity].
Qed.

(** What follows a marker in a rebuilt text. *)
Lemma reconstruct_cons v units :
  exists rest,
    reconstruct (v :: units)
    = text v ++ [SPACE] ++ numberToArabicIndic (number v) ++ rest
    /\ tl rest = reconstruct units
    /\ (startsClean rest = false \/ rest = []).
Proof.
  destruct units as [| v' units'].
  - exists []. repeat split. now right.
  - exists ([SPACE] ++ reconstruct (v' :: units')). repeat split. now left.
Qed.

Lemma goodVerse_spec v :
  goodVerse v = true ->
  truthy (text v) = true /\ trimmed (text v) = true
  /\ startsClean (rev (text v)) = true.
Proof.
  unfold goodVerse, trimmed. intros H.
  apply andb_true_iff in H as [H1 H2].
  pose proof H2 as H3. apply andb_true_iff in H3 as [_ H3]. auto.
Qed.

Lemma split_reconstruct_cons c v units :
  goodVerse v = true -> plainText v = true -> 0 <= number v < 2 ^ 53 ->
  splitFrom c [] (reconstruct (v :: units))
  = match splitFrom c [] (reconstruct units) with
    | Some A =>
        Some (textPart c (text v) :: numberToArabicIndic (number v) :: A)
    | None => None
    end.
Proof.
  intros Hg Hp Hn.
  destruct (goodVerse_spec _ Hg) as (Ht & Htr & Hend).
  destruct (marker_spec _ Hn) as (_ & Hall & Hne & _).
  destruct (reconstruct_cons v units) as (rest & -> & Htl & Hrest).
  pose proof (matchMarker_marker _ rest Hne Hall Hrest) as Hm.
  rewrite Htl in Hm. unfold plainText in Hp.
  destruct c.
  - rewrite splitFrom_skip_mid by (assumption || now left).
    apply splitFrom_match. exact Hm.
  - rewrite app_assoc, splitFrom_skip_end.
    + apply splitFrom_match. exact Hm.
    + rewrite noNumeral_app, Hp. reflexivity.
Qed.

Lemma trim_textPart c t :
  trimmed t = true -> truthy t = true -> trim (textPart c t) = t.
Proof.
  intros H Ht. destruct c; simpl.
  - now apply trim_id.
  - now apply trim_snoc_space.
Qed.

Lemma isVerseNum_textPart c t :
  noNumeral t = true -> isVerseNum (textPart c t) = false.
Proof.
  intros H. apply isVerseNum_noNumeral. destruct c; simpl; [assumption |].
  rewrite noNumeral_app, H. reflexivity.
Qed.

(** The text of a good unit, then its marker, put the unit back. *)
Lemma step_unit c v vs :
  goodVerse v = true -> plainText v = true -> 0 <= number v < 2 ^ 53 ->
  step c (step c (mkState vs [] (number v)) (textPart c (text v)))
       (numberToArabicIndic (number v))
  = mkState (vs ++ [v]) [] (number v + 1).
Proof.
  intros Hg Hp Hn.
  destruct (goodVerse_spec _ Hg) as (Ht & Htr & _).
  destruct (marker_spec _ Hn) as (Hv & _ & _ & Hval).
  rewrite (step_text c _ (textPart c (text v)))
    by now apply isVerseNum_textPart.
  rewrite step_accept by assumption.
  cbn [verses currentText expectedVerseNum].
  rewrite appendText_empty, trim_textPart by assumption.
  unfold pushVerse. rewrite Ht. now destruct v.
Qed.

Lemma resegment c units : forall vs e hi,
  forallb goodVerse units = true -> forallb plainText units = true ->
  consecutive e (numbers units) hi -> 0 <= e -> hi <= 2 ^ 53 ->
  exists A,
    splitFrom c [] (reconstruct units) = Some A
    /\ finish (scan c A (mkState vs [] e)) = vs ++ units.
Proof.
  induction units as [| v units IH]; intros vs e hi Hg Hp Hc He Hhi.
  - exists [[]]. split; [reflexivity |].
    simpl. rewrite step_text by reflexivity.
    unfold finish, pushVerse. simpl.
    now rewrite appendText_empty, app_nil_r.
  - simpl in Hg, Hp, Hc.
    apply andb_true_iff in Hg as [Hgv Hg].
    apply andb_true_iff in Hp as [Hpv Hp].
    destruct Hc as [Hnum Hc].
    pose proof (consecutive_length _ _ _ Hc) as Hlen.
    assert (Hn : 0 <= number v < 2 ^ 53) by lia.
    destruct (IH (vs ++ [v]) (e + 1) hi Hg Hp Hc ltac:(lia) Hhi)
      as (A & EA & Hfin).
    rewrite (split_reconstruct_cons c v units Hgv Hpv Hn), EA.
    eexists. split; [reflexivity |].
    cbn [scan fold_left]. rewrite <- Hnum at 1.
    rewrite (step_unit c v vs Hgv Hpv Hn), Hnum.
    fold (scan c A (mkState (vs ++ [v]) [] (e + 1))).
    rewrite Hfin, <- app_assoc. reflexivity.
Qed.

Lemma consecutive_of_nth units : forall lo,
  (forall i v, nth_error units i = Some v -> number v = lo + Z.of_nat i) ->
  consecutive lo (numbers units) (lo + Z.of_nat (length units)).
Proof.
  induction units as [| u units IH]; intros lo H.
  - simpl. lia.
  - cbn [numbers map consecutive]. split.
    + rewrite (H 0%nat u eq_refl). lia.
    + replace (lo + Z.of_nat (length (u :: units)))
        with (lo + 1 + Z.of_nat (length units)) by (simpl length; lia).
      apply IH. intros i v E. rewrite (H (S i) v E). lia.
Qed.


Lemma parse_goodVerses c content units :
  parseVersesFromContent c content = Some units ->
  forallb goodVerse units = true.
Proof.
  intros E. destruct (parse_unfold c content) as (parts & _ & Ep).
  rewrite Ep in E. inversion E; subst.
  apply finish_good, scan_good, initial_good.
Qed.

Lemma blank_with_digit s m t :
  m <> [] -> forallb isArabicIndicDigit m = true ->
  blank (s ++ m ++ t) = false.
Proof.
  intros Hne Hall. rewrite !blank_app.
  destruct m as [| d m]; [congruence |].
  simpl in Hall. apply andb_true_iff in Hall as [Hd _].
  simpl. rewrite (digit_not_space _ Hd). simpl. apply andb_false_r.
Qed.

(* ================================================================== *)
(** ** Verse numbers stay exact *)
(* ================================================================== *)

Lemma splitFrom_length c s : forall T A,
  splitFrom c T s = Some A -> (length A <= 2 * length s + 1)%nat.
Proof.
  remember (length s) as n eqn:Hn.
  revert s Hn. induction n as [n IH] using lt_wf_ind. intros s Hn T A E.
  destruct s as [| ch s'].
  - rewrite splitFrom_nil in E. inversion E. simpl. lia.
  - destruct (matchAt c (ch :: s')) as [[capture rest] |] eqn:Em.
    + rewrite (splitFrom_match _ _ _ _ _ Em) in E.
      apply matchAt_spec in Em as [_ Hlen].
      destruct (splitFrom c [] rest) as [A' |] eqn:E'; [| discriminate].
      inversion E; subst A.
      apply (IH (length rest)) in E'; [| lia | reflexivity].
      simpl in *. lia.
    + rewrite (splitFrom_skip1 _ _ _ _ Em) in E.
      apply (IH (length s')) in E; [| subst; simpl; lia | reflexivity].
      simpl in *. lia.
Qed.

Lemma step_expected c st part :
  expectedVerseNum st <= expectedVerseNum (step c st part)
                      <= expectedVerseNum st + 1.
Proof.
  destruct (step_cases c st part)
    as [(_ & _ & ->) | [(_ & _ & ->) | (_ & ->)]]; simpl; lia.
Qed.

Lemma scan_expected c parts : forall st,
  expectedVerseNum (scan c parts st)
  <= expectedVerseNum st + Z.of_nat (length parts).
Proof.
  induction parts as [| p parts IH]; intros st; [simpl; lia |].
  cbn [scan fold_left]. fold (scan c parts (step c st p)).
  specialize (IH (step c st p)).
  pose proof (step_expected c st p). simpl length. lia.
Qed.

(** No verse number exceeds twice the length of the content plus two: for
    every string that an engine can hold, the numbers are far below
    [2^53], where [expectedVerseNum++] is exact. *)
Lemma verse_numbers_bounded c content units :
  parseVersesFromContent c content = Some units ->
  Forall (fun v => 1 <= number v <= 2 * Z.of_nat (length content) + 2) units.
Proof.
  intros E. destruct (parse_unfold c content) as (parts & Es & Ep).
  rewrite Ep in E. inversion E; subst units; clear E.
  change (split c content) with (splitFrom c [] content) in Es.
  apply splitFrom_length in Es.
  pose proof (scan_expected c parts initial) as Hexp.
  change (expectedVerseNum initial) with 1 in Hexp.
  destruct (finish_good _ (scan_good c parts _ initial_good)) as [Hb _].
  apply ascending_bounds in Hb as [Hall _].
  unfold numbers in Hall. rewrite Forall_map in Hall.
  eapply Forall_impl; [| exact Hall]. cbv beta. intros v Hv. lia.
Qed.

(* ================================================================== *)
(** ** The numeral decoder *)
(* ================================================================== *)

Lemma composeBase10_bound s : forall a,
  forallb isArabicIndicDigit s = true -> 0 <= a ->
  0 <= fold_left (fun acc c => acc * 10 + digitOf c) s a
    < (a + 1) * 10 ^ Z.of_nat (length s).
Proof.
  induction s as [| c s IH]; intros a Hall Ha.
  - simpl. lia.
  - simpl in Hall. apply andb_true_iff in Hall as [Hc Hs].
    pose proof (digitOf_range _ Hc) as Hd.
    cbn [fold_left length]. rewrite Nat2Z.inj_succ, Z.pow_succ_r by lia.
    specialize (IH (a * 10 + digitOf c) Hs ltac:(lia)).
    assert (0 < 10 ^ Z.of_nat (length s)) by (apply Z.pow_pos_nonneg; lia).
    nia.
Qed.

(** C2 (as stated): the sixteen-digit numeral for [2^53 + 1] does not
    decode to [2^53 + 1] but to [2^53], the nearest Number. *)
Lemma decoder_long_numeral_counterexample :
  sixteenDigits <> []
  /\ forallb isArabicIndicDigit sixteenDigits = true
  /\ composeBase10 sixteenDigits = 9007199254740993
  /\ arabicIndicToNumber sixteenDigits = Fin 9007199254740992
  /\ arabicIndicToNumber sixteenDigits <> Fin (composeBase10 sixteenDigits).
Proof.
  split; [discriminate |]. split; [reflexivity |].
  split; [reflexivity |]. split; [vm_compute; reflexivity |].
  vm_compute. discriminate.
Qed.

(** C2 (amended): for a non-empty string of characters of the two numeral
    alphabets, [arabicIndicToNumber] returns the Number nearest to the
    integer that the digits compose in base 10, leftmost digit most
    significant; that is the integer itself when it is below [2^53], in
    particular for every string of at most fifteen digits. *)
Theorem decoder_composes_base10 (s : str) :
  s <> [] -> forallb isArabicIndicDigit s = true ->
  arabicIndicToNumber s = roundNat (composeBase10 s)
  /\ (composeBase10 s < 2 ^ 53 ->
      arabicIndicToNumber s = Fin (composeBase10 s))
  /\ ((length s <= 15)%nat ->
      arabicIndicToNumber s = Fin (composeBase10 s)).
Proof.
  intros Hne Hall.
  pose proof (arabicIndicToNumber_digits s Hne Hall) as E.
  split; [exact E |]. split.
  - intros Hlt. rewrite E. now apply roundNat_small.
  - intros Hlen. rewrite E. apply roundNat_small.
    pose proof (composeBase10_bound s 0 Hall ltac:(lia)) as Hb.
    fold (composeBase10 s) in Hb.
    assert (10 ^ Z.of_nat (length s) <= 10 ^ 15)
      by (apply Z.pow_le_mono_r; lia).
    assert (10 ^ 15 < 2 ^ 53) by reflexivity. lia.
Qed.

(** The digits 1, 0, 2 of the Arabic-Indic alphabet decode to 102. *)
Lemma decoder_composes_base10_witness :
  arabicIndicToNumber [0x661; 0x660; 0x662] = Fin 102.
Proof.
  destruct (decoder_composes_base10 [0x661; 0x660; 0x662])
    as (_ & H & _); [discriminate | reflexivity |].
  apply H. reflexivity.
Defined.

(** The same digits of the Extended Arabic-Indic alphabet. *)
Example decoder_extended_102 :
  arabicIndicToNumber [0x6F1; 0x6F0; 0x6F2] = Fin 102.
Proof. reflexivity. Qed.

(** C9 (as stated): [10^21] is a Number, printed by [String] as "1e+21";
    its marker is "١٢١", which decodes to 121. *)
Lemma marker_round_trip_counterexample :
  isNumberValue (10 ^ 21)
  /\ numberToArabicIndic (10 ^ 21) = [0x661; 0x662; 0x661]
  /\ arabicIndicToNumber (numberToArabicIndic (10 ^ 21)) = Fin 121
  /\ arabicIndicToNumber (numberToArabicIndic (10 ^ 21)) <> Fin (10 ^ 21).
Proof.
  split; [vm_compute; reflexivity |]. split; [vm_compute; reflexivity |].
  split; [vm_compute; reflexivity |]. vm_compute. discriminate.
Qed.

(** C9 (amended): for every non-negative integer Number [n] below [10^21],
    decoding the marker printed for [n] returns [n]. *)
Theorem marker_round_trip (n : Z) :
  isNumberValue n -> 0 <= n < 10 ^ 21 ->
  arabicIndicToNumber (numberToArabicIndic n) = Fin n.
Proof. intros Hn Hr. now apply numberToArabicIndic_spec. Qed.

(** The number of verses of the longest surah, and [2^63], whose string
    "9223372036854776000" is not its exact decimal expansion. *)
Lemma marker_round_trip_witness :
  arabicIndicToNumber (numberToArabicIndic 286) = Fin 286
  /\ arabicIndicToNumber (numberToArabicIndic (2 ^ 63)) = Fin (2 ^ 63).
Proof.
  split; apply marker_round_trip;
    solve [vm_compute; reflexivity | split; [discriminate | reflexivity]].
Defined.

(* ================================================================== *)
(** ** The segmenter always returns *)
(* ================================================================== *)

(** C7: for every input string and in both conventions the segmenter
    returns a list of units, possibly empty: the loop of [split] finishes
    and nothing else can fail.  The units returned are well formed. *)
Theorem segmenter_returns (c : convention) (content : str) :
  exists units,
    parseVersesFromContent c content = Some units
    /\ forallb goodVerse units = true.
Proof.
  destruct (parse_unfold c content) as (parts & _ & E).
  eexists. split; [exact E |].
  apply finish_good, scan_good, initial_good.
Qed.

(* ================================================================== *)
(** ** Sequence numbers *)
(* ================================================================== *)

(** C10: in both conventions the sequence numbers returned are strictly
    increasing and at least 1. *)
Theorem numbers_strictly_increasing (c : convention) (content : str) :
  exists units,
    parseVersesFromContent c content = Some units
    /\ StronglySorted Z.lt (numbers units)
    /\ Forall (fun n => 1 <= n) (numbers units).
Proof.
  destruct (parse_unfold c content) as (parts & _ & E).
  eexists. split; [exact E |].
  destruct (finish_good _ (scan_good c parts _ initial_good)) as [Hb _].
  split; [eapply ascending_sorted; exact Hb |].
  apply ascending_bounds in Hb as [Hall _].
  eapply Forall_impl; [| exact Hall]. cbv beta. intros; lia.
Qed.

(** C1 (as stated): a marker with no text before it closes an empty verse,
    which is dropped, and the first unit returned is numbered 2. *)
Lemma numbering_gap_counterexample :
  parseVersesFromContent END_OF_UNIT markerFirst = Some [mkVerse 2 [0x61]]
  /\ ~ (forall c content units i v,
          parseVersesFromContent c content = Some units ->
          nth_error units i = Some v -> number v = Z.of_nat i + 1).
Proof.
  split; [vm_compute; reflexivity |].
  intros H.
  specialize (H END_OF_UNIT markerFirst [mkVerse 2 [0x61]] 0%nat
                (mkVerse 2 [0x61])
                ltac:(vm_compute; reflexivity) eq_refl).
  discriminate H.
Qed.

(** C1 (amended): [units[i].number >= i + 1] for every index [i], with
    equality at every index when no expected marker is met with an empty
    text, so that no verse is dropped. *)
Theorem numbers_follow_index (c : convention) (content : str) :
  exists units,
    parseVersesFromContent c content = Some units
    /\ (forall i v, nth_error units i = Some v ->
                    Z.of_nat i + 1 <= number v)
    /\ (neverDrops c content = true ->
        forall i v, nth_error units i = Some v ->
                    number v = Z.of_nat i + 1).
Proof.
  destruct (parse_unfold c content) as (parts & Es & E).
  eexists. split; [exact E |]. split.
  - intros i v Hi.
    destruct (finish_good _ (scan_good c parts _ initial_good)) as [Hb _].
    pose proof (ascending_nth _ _ _ i (number v) Hb) as Hn.
    unfold numbers in Hn. rewrite nth_error_map, Hi in Hn.
    specialize (Hn eq_refl). lia.
  - unfold neverDrops. rewrite Es. intros Hd i v Hi.
    destruct (finish_consecutive (scan c parts initial)) as [hi Hc].
    { apply scan_consecutive; [reflexivity | exact Hd]. }
    pose proof (consecutive_nth _ _ _ i (number v) Hc) as Hn.
    unfold numbers in Hn. rewrite nth_error_map, Hi in Hn.
    specialize (Hn eq_refl). lia.
Qed.

Lemma numbers_follow_index_witness :
  neverDrops END_OF_UNIT helloWorld = true
  /\ exists units,
       parseVersesFromContent END_OF_UNIT helloWorld = Some units
       /\ forall i v, nth_error units i = Some v ->
                      number v = Z.of_nat i + 1.
Proof.
  split; [reflexivity |].
  destruct (numbers_follow_index END_OF_UNIT helloWorld)
    as (units & E & _ & H).
  exists units. split; [exact E |]. apply H. reflexivity.
Defined.

(** The example of the end-of-unit convention. *)
Example helloWorld_units :
  parseVersesFromContent END_OF_UNIT helloWorld
  = Some [mkVerse 1 [0x48; 0x65; 0x6C; 0x6C; 0x6F];
          mkVerse 2 [0x57; 0x6F; 0x72; 0x6C; 0x64]].
Proof. reflexivity. Qed.

(** C3: under the mid-stream convention the content [tenBeforeTwo], in
    which the marker 10 comes before the marker 2, is cut at both markers;
    both are rejected (10 and 2 are not the expected 1, which stays 1) and
    appended as text, and the one unit returned is numbered 1 and holds
    the whole content. *)
Theorem mid_stream_rejects_ten_then_two :
  split MID_STREAM tenBeforeTwo
  = Some [ [0x627; 0x644; 0x653; 0x631; 0x6DA; 0x20;
            0x62A; 0x650; 0x644; 0x6E1; 0x643; 0x64E];
           [0x661; 0x660];
           [0x621; 0x64E; 0x627; 0x64A; 0x64E; 0x670; 0x62A; 0x64F];
           [0x662];
           [] ]
  /\ arabicIndicToNumber [0x661; 0x660] = Fin 10
  /\ arabicIndicToNumber [0x662] = Fin 2
  /\ expectedVerseNum
       (scan MID_STREAM
             [ [0x627; 0x644; 0x653; 0x631; 0x6DA; 0x20;
                0x62A; 0x650; 0x644; 0x6E1; 0x643; 0x64E];
               [0x661; 0x660];
               [0x621; 0x64E; 0x627; 0x64A; 0x64E; 0x670; 0x62A; 0x64F] ]
             initial) = 1
  /\ parseVersesFromContent MID_STREAM tenBeforeTwo
     = Some [mkVerse 1 tenBeforeTwo].
Proof.
  split; [vm_compute; reflexivity |].
  split; [vm_compute; reflexivity |].
  split; [vm_compute; reflexivity |].
  split; vm_compute; reflexivity.
Qed.

(* ================================================================== *)
(** ** Boundary cases and the final unit *)
(* ================================================================== *)

(** C6: in both conventions, content made of white space only yields no
    unit; content without any numeral character yields exactly one unit,
    numbered 1, holding the trimmed content; and in general the text left
    in [currentText] after the loop, if not empty once trimmed, is added
    as one last unit numbered [expectedVerseNum]. *)
Theorem boundary_and_final_unit (c : convention) (content : str) :
  (blank content = true -> parseVersesFromContent c content = Some [])
  /\ (noNumeral content = true -> blank content = false ->
      parseVersesFromContent c content = Some [mkVerse 1 (trim content)])
  /\ exists parts,
       split c content = Some parts
       /\ let st := scan c parts initial in
          parseVersesFromContent c content
          = Some (verses st
                  ++ if truthy (trim (currentText st))
                     then [mkVerse (expectedVerseNum st)
                                   (trim (currentText st))]
                     else []).
Proof.
  split; [| split].
  - intros Hb. rewrite parse_noNumeral by now apply blank_noNumeral.
    now rewrite (trim_blank _ Hb).
  - intros Hn Hb. rewrite (parse_noNumeral _ _ Hn).
    now rewrite (trim_nonblank _ Hb).
  - destruct (parse_unfold c content) as (parts & Es & E).
    exists parts. split; [exact Es |]. cbv zeta. rewrite E.
    unfold finish, pushVerse.
    destruct (truthy (trim (currentText (scan c parts initial))));
      [reflexivity | now rewrite app_nil_r].
Qed.

Lemma boundary_and_final_unit_witness :
  parseVersesFromContent MID_STREAM [0x20; 0x09; 0xA0] = Some []
  /\ parseVersesFromContent END_OF_UNIT [0x20; 0x61; 0x20; 0x62; 0x0A]
     = Some [mkVerse 1 [0x61; 0x20; 0x62]].
Proof.
  split.
  - apply (boundary_and_final_unit MID_STREAM [0x20; 0x09; 0xA0]).
    reflexivity.
  - apply (boundary_and_final_unit END_OF_UNIT [0x20; 0x61; 0x20; 0x62; 0x0A]);
      reflexivity.
Defined.

(* ================================================================== *)
(** ** A gap in the markers *)
(* ================================================================== *)

Lemma blank_firstn_cases t :
  blank (firstn 1 t) = true -> startsClean t = false \/ t = [].
Proof.
  destruct t as [| w t]; [now right |]. simpl.
  rewrite andb_true_r. intros ->. now left.
Qed.

(** Under the end-of-unit convention, in content that holds the marker
    "١" and then the marker "٣", each followed by white space or by the
    end, and no other numeral, the first unit is numbered 1 and holds the
    text before "١"; "٣" is not the expected 2, so it is appended to the
    text as it is; and exactly one more unit follows, numbered 2.  Its
    text holds the character "٣", but it is not the rest of the content:
    the white-space character that followed "٣" was taken by the pattern
    and is not put back ([tl t], not [t]). *)
Lemma end_of_unit_rejects_gap (a b t : str) (w : Z) :
  noNumeral a = true -> blank a = false -> isWhiteSpace w = true ->
  noNumeral b = true ->
  noNumeral t = true -> blank (firstn 1 t) = true ->
  parseVersesFromContent END_OF_UNIT (a ++ [0x661; w] ++ b ++ [0x663] ++ t)
  = Some [mkVerse 1 (trim a); mkVerse 2 (trim (b ++ [0x663] ++ tl t))]
  /\ In 0x663 (trim (b ++ [0x663] ++ tl t)).
Proof.
  intros Ha Hab Hw Hb Ht Ht1.
  assert (Htl : noNumeral (tl t) = true).
  { destruct t as [| x t]; [reflexivity |].
    simpl in Ht. now apply andb_true_iff in Ht as [_ Ht]. }
  (* the parts *)
  assert (Es : split END_OF_UNIT (a ++ [0x661; w] ++ b ++ [0x663] ++ t)
               = Some [a; [0x661]; b; [0x663]; tl t]).
  { change (split END_OF_UNIT ?s) with (splitFrom END_OF_UNIT [] s).
    rewrite splitFrom_skip_end by assumption.
    rewrite (splitFrom_match END_OF_UNIT _ _ [0x661]
                             (b ++ [0x663] ++ t)).
    2:{ apply (matchMarker_marker [0x661] (w :: b ++ [0x663] ++ t));
          [discriminate | reflexivity |].
        left. simpl. now rewrite Hw. }
    rewrite splitFrom_skip_end by assumption.
    rewrite (splitFrom_match END_OF_UNIT _ _ [0x663] (tl t)).
    2:{ apply (matchMarker_marker [0x663] t);
          [discriminate | reflexivity |].
        now apply blank_firstn_cases. }
    rewrite (splitFrom_noNumeral _ _ _ Htl). reflexivity. }
  (* the loop *)
  assert (E1 : arabicIndicToNumber [0x661] = Fin 1) by reflexivity.
  assert (E3 : strictEq (arabicIndicToNumber [0x663]) (Fin 2) = false)
    by reflexivity.
  split.
  - unfold parseVersesFromContent. rewrite Es.
    cbn [scan fold_left].
    rewrite (step_text _ initial a) by now apply isVerseNum_noNumeral.
    rewrite (step_accept _ _ [0x661]) by (reflexivity || exact E1).
    cbn [verses currentText expectedVerseNum].
    rewrite (step_text _ _ b) by now apply isVerseNum_noNumeral.
    rewrite (step_reject _ _ [0x663]) by (reflexivity || exact E3).
    rewrite (step_text _ _ (tl t)) by now apply isVerseNum_noNumeral.
    unfold finish, pushVerse.
    cbn [verses currentText expectedVerseNum appendText appendRejected
         initial app].
    rewrite (trim_nonblank _ Hab).
    rewrite <- app_assoc.
    rewrite (trim_nonblank (b ++ [0x663] ++ tl t))
      by (apply blank_with_digit; [discriminate | reflexivity]).
    reflexivity.
  - apply In_trim; [| reflexivity].
    apply in_or_app. right. now left.
Qed.

(** "a ١ b ٣ c" gives [(1, "a"); (2, "b ٣c")]. *)
Lemma end_of_unit_rejects_gap_witness :
  parseVersesFromContent END_OF_UNIT
    [0x61; 0x20; 0x661; 0x20; 0x62; 0x20; 0x663; 0x20; 0x63]
  = Some [mkVerse 1 [0x61]; mkVerse 2 [0x62; 0x20; 0x663; 0x63]].
Proof.
  apply (end_of_unit_rejects_gap [0x61; 0x20] [0x62; 0x20] [0x20; 0x63] 0x20);
    reflexivity.
Defined.

(** C4: on "a ١ b ٣ c" the end-of-unit routine splits the content into
    "a ", "١", "b ", "٣", "c", returns the unit (1, "a") and exactly one
    more unit, numbered 2, whose text "b ٣c" holds the character "٣" but
    is not the remainder "b ٣ c" of the content: the white space after the
    rejected "٣" is lost.  The mid-stream routine returns the remainder on
    the same content. *)
Theorem end_of_unit_gap_loses_white_space :
  let remainder := trim (skipn 3 oneThenThree) in
  split END_OF_UNIT oneThenThree
  = Some [[0x61; 0x20]; [0x661]; [0x62; 0x20]; [0x663]; [0x63]]
  /\ parseVersesFromContent END_OF_UNIT oneThenThree
     = Some [mkVerse 1 [0x61]; mkVerse 2 [0x62; 0x20; 0x663; 0x63]]
  /\ In 0x663 [0x62; 0x20; 0x663; 0x63]
  /\ remainder = [0x62; 0x20; 0x663; 0x20; 0x63]
  /\ [0x62; 0x20; 0x663; 0x63] <> remainder
  /\ parseVersesFromContent MID_STREAM oneThenThree
     = Some [mkVerse 1 [0x61]; mkVerse 2 remainder].
Proof.
  cbv zeta.
  split; [vm_compute; reflexivity |].
  split; [vm_compute; reflexivity |].
  split; [right; right; now left |].
  split; [vm_compute; reflexivity |].
  split; [vm_compute; discriminate |].
  vm_compute; reflexivity.
Qed.

(* ================================================================== *)
(** ** Appending to the text *)
(* ================================================================== *)

(** C5: on "٣ ٤" the end-of-unit routine splits the content into "",
    "٣", "", "٤", "" and rejects both markers; "٤" is appended to the text
    "٣" with no space before it, and the unit returned holds "٣٤": the
    white space that the pattern took after "٣" is lost.  The mid-stream
    routine returns "٣ ٤" on the same content. *)
Theorem end_of_unit_glues_rejected_marker :
  let st := scan END_OF_UNIT [[]; [0x663]; []] initial in
  split END_OF_UNIT threeFour = Some [[]; [0x663]; []; [0x664]; []]
  /\ currentText st = [0x663]
  /\ isVerseNum [0x664] = true
  /\ strictEq (arabicIndicToNumber [0x664]) (Fin (expectedVerseNum st))
     = false
  /\ currentText (step END_OF_UNIT st [0x664]) = [0x663; 0x664]
  /\ currentText (step END_OF_UNIT st [0x664])
     <> currentText st ++ [SPACE] ++ [0x664]
  /\ parseVersesFromContent END_OF_UNIT threeFour
     = Some [mkVerse 1 [0x663; 0x664]]
  /\ parseVersesFromContent MID_STREAM threeFour
     = Some [mkVerse 1 [0x663; 0x20; 0x664]].
Proof.
  cbv zeta.
  split; [vm_compute; reflexivity |].
  split; [vm_compute; reflexivity |].
  split; [vm_compute; reflexivity |].
  split; [vm_compute; reflexivity |].
  split; [vm_compute; reflexivity |].
  split; [vm_compute; discriminate |].
  split; [vm_compute; reflexivity |].
  vm_compute; reflexivity.
Qed.

(** When a marker is not the expected one, the mid-stream routine appends
    a single space and the marker to the text, and it appends a part that
    is not a number after a single space unless the text is empty; so the
    white-space characters around a rejected marker come out as single
    spaces. *)
Lemma mid_stream_append_rules (st : state) (part : str) :
  (isVerseNum part = true ->
   strictEq (arabicIndicToNumber part) (Fin (expectedVerseNum st)) = false ->
   step MID_STREAM st part
   = mkState (verses st) (currentText st ++ [SPACE] ++ part)
             (expectedVerseNum st))
  /\ (isVerseNum part = false ->
      step MID_STREAM st part
      = mkState (verses st)
                (currentText st
                 ++ (if truthy (currentText st) then [SPACE] else [])
                 ++ part)
                (expectedVerseNum st))
  /\ (forall x y w1 w2,
        noNumeral x = true -> noNumeral y = true ->
        isWhiteSpace w1 = true -> isWhiteSpace w2 = true ->
        isVerseNum part = true ->
        strictEq (arabicIndicToNumber part) (Fin 1) = false ->
        parseVersesFromContent MID_STREAM (x ++ [w1] ++ part ++ [w2] ++ y)
        = Some [mkVerse 1 (trim (x ++ [SPACE] ++ part ++ [SPACE] ++ y))]).
Proof.
  split; [| split].
  - intros Hv Hn. rewrite (step_reject _ _ _ Hv Hn). reflexivity.
  - intros Hv. rewrite (step_text _ _ _ Hv). reflexivity.
  - intros x y w1 w2 Hx Hy Hw1 Hw2 Hv Hn.
    pose proof Hv as Hv'. unfold isVerseNum in Hv'.
    apply andb_true_iff in Hv' as [Hne Hall].
    assert (Hne' : part <> []) by (destruct part; discriminate || congruence).
    assert (Es : split MID_STREAM (x ++ [w1] ++ part ++ [w2] ++ y)
                 = Some [x; part; y]).
    { change (split MID_STREAM ?s) with (splitFrom MID_STREAM [] s).
      rewrite splitFrom_skip_mid;
        [| assumption | right; simpl; destruct (isArabicIndicDigit w1) eqn:E;
                        [apply digit_not_space in E; congruence
                        | reflexivity]].
      rewrite (splitFrom_match MID_STREAM _ _ part y).
      2:{ cbn [app matchAt]. rewrite Hw1.
          apply (matchMarker_marker part (w2 :: y)); try assumption.
          left. simpl. now rewrite Hw2. }
      rewrite (splitFrom_noNumeral _ _ _ Hy). reflexivity. }
    unfold parseVersesFromContent. rewrite Es.
    cbn [scan fold_left].
    rewrite (step_text _ initial x) by now apply isVerseNum_noNumeral.
    rewrite (step_reject _ _ part) by assumption.
    rewrite (step_text _ _ y) by now apply isVerseNum_noNumeral.
    unfold finish, pushVerse.
    cbn [verses currentText expectedVerseNum appendText appendRejected
         initial].
    replace (truthy (([] ++ (if truthy [] then [SPACE] else []) ++ x)
                     ++ [SPACE] ++ part)) with true
      by (cbn [truthy app]; destruct x; destruct part;
          reflexivity || congruence).
    cbn [truthy app]. rewrite <- !app_assoc. cbn [app].
    rewrite (trim_nonblank (x ++ SPACE :: part ++ SPACE :: y)).
    + reflexivity.
    + change (SPACE :: part ++ SPACE :: y)
        with ([SPACE] ++ part ++ SPACE :: y).
      rewrite app_assoc. now apply blank_with_digit.
Qed.

(** "a" tab "٥" no-break-space "b" is one unit, "a ٥ b" with plain
    spaces. *)
Lemma mid_stream_append_rules_witness :
  step MID_STREAM (mkState [] [0x61] 1) [0x665]
  = mkState [] [0x61; 0x20; 0x665] 1
  /\ step MID_STREAM (mkState [] [0x61] 1) [0x62]
     = mkState [] [0x61; 0x20; 0x62] 1
  /\ parseVersesFromContent MID_STREAM [0x61; 0x09; 0x665; 0xA0; 0x62]
     = Some [mkVerse 1 [0x61; 0x20; 0x665; 0x20; 0x62]].
Proof.
  split; [| split].
  - apply (proj1 (mid_stream_append_rules (mkState [] [0x61] 1) [0x665]));
      reflexivity.
  - apply (proj1 (proj2
             (mid_stream_append_rules (mkState [] [0x61] 1) [0x62])));
      reflexivity.
  - apply (proj2 (proj2 (mid_stream_append_rules initial [0x665]))
             [0x61] [0x62] 0x09 0xA0);
      reflexivity.
Defined.

(* ================================================================== *)
(** ** Segmenting the rebuilt text again *)
(* ================================================================== *)

(** C8 (as stated): a dropped verse leaves a gap, and the text rebuilt from
    the units then starts with the wrong marker; and under the end-of-unit
    convention a numeral inside a text loses the white space after it. *)
Lemma resegmenting_counterexample :
  parseVersesFromContent END_OF_UNIT markerFirst = Some [mkVerse 2 [0x61]]
  /\ reconstruct [mkVerse 2 [0x61]] = [0x61; 0x20; 0x662]
  /\ parseVersesFromContent END_OF_UNIT (reconstruct [mkVerse 2 [0x61]])
     = Some [mkVerse 1 [0x61; 0x20; 0x662]]
  /\ parseVersesFromContent END_OF_UNIT [0x78; 0x20; 0x663; 0x20; 0x20; 0x79]
     = Some [mkVerse 1 [0x78; 0x20; 0x663; 0x20; 0x79]]
  /\ parseVersesFromContent END_OF_UNIT
       (reconstruct [mkVerse 1 [0x78; 0x20; 0x663; 0x20; 0x79]])
     = Some [mkVerse 1 [0x78; 0x20; 0x663; 0x79]]
  /\ ~ (forall c content units,
          parseVersesFromContent c content = Some units ->
          parseVersesFromContent c (reconstruct units) = Some units).
Proof.
  split; [vm_compute; reflexivity |].
  split; [vm_compute; reflexivity |].
  split; [vm_compute; reflexivity |].
  split; [vm_compute; reflexivity |].
  split; [vm_compute; reflexivity |].
  intros H.
  specialize (H END_OF_UNIT markerFirst [mkVerse 2 [0x61]]).
  assert (E : parseVersesFromContent END_OF_UNIT
                (reconstruct [mkVerse 2 [0x61]])
              = Some [mkVerse 1 [0x61; 0x20; 0x662]])
    by (vm_compute; reflexivity).
  rewrite E in H. specialize (H ltac:(vm_compute; reflexivity)).
  discriminate H.
Qed.

(** C8 (amended): when the units returned for a content are numbered
    [1, 2, ...] without a gap and their texts hold no numeral character,
    segmenting the text rebuilt from them (each text, a space, its marker,
    all joined by spaces) under the same convention returns the same
    units. *)
Theorem resegmenting_rebuilt_text
        (c : convention) (content : str) (units : list Verse) :
  parseVersesFromContent c content = Some units ->
  (forall i v, nth_error units i = Some v -> number v = Z.of_nat i + 1) ->
  forallb plainText units = true ->
  Z.of_nat (length units) < 2 ^ 53 ->
  parseVersesFromContent c (reconstruct units) = Some units.
Proof.
  intros E Hnum Hplain Hlen.
  pose proof (parse_goodVerses _ _ _ E) as Hgood.
  assert (Hc : consecutive 1 (numbers units)
                           (1 + Z.of_nat (length units))).
  { apply consecutive_of_nth. intros i v Hi. rewrite (Hnum i v Hi). lia. }
  destruct (resegment c units [] 1 _ Hgood Hplain Hc ltac:(lia) ltac:(lia))
    as (A & EA & Hfin).
  unfold parseVersesFromContent.
  change (split c (reconstruct units))
    with (splitFrom c [] (reconstruct units)).
  rewrite EA. f_equal. exact Hfin.
Qed.

Lemma resegmenting_rebuilt_text_witness :
  parseVersesFromContent END_OF_UNIT
    (reconstruct [mkVerse 1 [0x48; 0x65; 0x6C; 0x6C; 0x6F];
                  mkVerse 2 [0x57; 0x6F; 0x72; 0x6C; 0x64]])
  = Some [mkVerse 1 [0x48; 0x65; 0x6C; 0x6C; 0x6F];
          mkVerse 2 [0x57; 0x6F; 0x72; 0x6C; 0x64]].
Proof.
  apply (resegmenting_rebuilt_text END_OF_UNIT helloWorld).
  - reflexivity.
  - intros [| [| i]] v Hi; simpl in Hi; inversion Hi; subst;
      try reflexivity.
    destruct i; discriminate.
  - reflexivity.
  - reflexivity.
Defined.

(* ================================================================== *)
(** ** Further properties of the numeral converters *)
(* ================================================================== *)

Lemma lookup_not_numeral c :
  isArabicIndicDigit c = false -> lookup arabicIndicDigits c = None.
Proof.
  intros H. unfold isArabicIndicDigit in H. unfold arabicIndicDigits.
  cbn [lookup].
  repeat match goal with
         | |- context [?k =? c] =>
             replace (k =? c) with false by lia
         end.
  reflexivity.
Qed.

Lemma toAscii_other c : isArabicIndicDigit c = false -> toAscii c = c.
Proof. intros H. unfold toAscii. now rewrite lookup_not_numeral. Qed.

Lemma ascii_not_numeral c :
  isAsciiDigit c = true -> isArabicIndicDigit c = false.
Proof. unfold isAsciiDigit, isArabicIndicDigit. lia. Qed.

Lemma toAscii_anyDigit c :
  isAnyDigit c = true ->
  isAsciiDigit (toAscii c) = true /\ toAscii c - 0x30 = anyDigitOf c.
Proof.
  unfold isAnyDigit, anyDigitOf. intros H.
  destruct (isAsciiDigit c) eqn:Ea.
  - rewrite (toAscii_other _ (ascii_not_numeral _ Ea)). now split.
  - simpl in H. split; [now apply toAscii_isAscii |].
    rewrite (toAscii_digit _ H). lia.
Qed.

Lemma asciiValue_anyDigit s :
  forallb isAnyDigit s = true ->
  forall a,
    forallb isAsciiDigit (map toAscii s) = true
    /\ asciiValue a (map toAscii s)
       = fold_left (fun acc c => acc * 10 + anyDigitOf c) s a.
Proof.
  induction s as [| c s IH]; intros Hall a; [now split |].
  cbn [forallb] in Hall. apply andb_true_iff in Hall as [Hc Hs].
  destruct (toAscii_anyDigit _ Hc) as [H1 H2].
  destruct (IH Hs (a * 10 + anyDigitOf c)) as [IH1 IH2].
  cbn [map forallb fold_left]. rewrite H1, IH1. split; [reflexivity |].
  unfold asciiValue in *. cbn [fold_left]. now rewrite H2.
Qed.

Lemma arabicIndicToNumber_anyDigits s :
  s <> [] -> forallb isAnyDigit s = true ->
  arabicIndicToNumber s
  = roundNat (fold_left (fun acc c => acc * 10 + anyDigitOf c) s 0).
Proof.
  intros Hne Hall. unfold arabicIndicToNumber.
  destruct (asciiValue_anyDigit s Hall 0) as [H1 H2].
  rewrite parseInt_digits, H2; [reflexivity | | assumption].
  destruct s; [congruence | discriminate].
Qed.

(** The decoder reads ASCII digits as well, alone or mixed with the two
    numeral alphabets: the lookup leaves them as they are. *)
Theorem decoder_reads_three_alphabets (s : str) :
  s <> [] -> forallb isAnyDigit s = true ->
  arabicIndicToNumber s
  = roundNat (fold_left (fun acc c => acc * 10 + anyDigitOf c) s 0).
Proof. apply arabicIndicToNumber_anyDigits. Qed.

(** "4" in ASCII, "٢" Arabic-Indic, "۷" Extended: 427. *)
Lemma decoder_reads_three_alphabets_witness :
  arabicIndicToNumber [0x34; 0x662; 0x6F7] = Fin 427.
Proof.
  rewrite decoder_reads_three_alphabets; [| discriminate | reflexivity].
  reflexivity.
Defined.

(** Zeros in front of a numeral do not change what it decodes to, so a
    marker such as "٠١" counts as 1. *)
Theorem decoder_ignores_leading_zeros (zeros s : str) :
  forallb isAnyDigit zeros = true ->
  Forall (fun z => anyDigitOf z = 0) zeros ->
  s <> [] -> forallb isAnyDigit s = true ->
  arabicIndicToNumber (zeros ++ s) = arabicIndicToNumber s.
Proof.
  intros Hz Hzero Hne Hs.
  assert (Hne' : zeros ++ s <> [])
    by (destruct zeros; [assumption | discriminate]).
  assert (Hs' : forallb isAnyDigit (zeros ++ s) = true)
    by now rewrite forallb_app, Hz, Hs.
  rewrite (arabicIndicToNumber_anyDigits _ Hne' Hs').
  rewrite (arabicIndicToNumber_anyDigits _ Hne Hs).
  f_equal. rewrite fold_left_app. f_equal.
  clear Hz Hne' Hs'. induction Hzero as [| z zs Hz0 _ IH]; [reflexivity |].
  cbn [fold_left]. rewrite Hz0. exact IH.
Qed.

Lemma decoder_ignores_leading_zeros_witness :
  arabicIndicToNumber [0x660; 0x6F0; 0x661; 0x662]
  = arabicIndicToNumber [0x661; 0x662].
Proof.
  apply (decoder_ignores_leading_zeros [0x660; 0x6F0] [0x661; 0x662]).
  - reflexivity.
  - repeat constructor.
  - discriminate.
  - reflexivity.
Defined.

Lemma digitValue_not_digit c :
  isAsciiDigit c = false -> digitValue 10 c = None.
Proof.
  unfold isAsciiDigit, digitValue. intros H.
  replace ((0x30 <=? c) && (c <=? 0x39)) with false by lia.
  destruct ((0x61 <=? c) && (c <=? 0x7A)) eqn:E1.
  - replace (c - 0x61 + 10 <? 10) with false by lia. reflexivity.
  - destruct ((0x41 <=? c) && (c <=? 0x5A)) eqn:E2; [| reflexivity].
    replace (c - 0x41 + 10 <? 10) with false by lia. reflexivity.
Qed.

(** The decoder gives [NaN], which equals no number, for the empty string
    and for every string that starts with a character that is neither a
    digit, nor white space, nor a sign. *)
Theorem decoder_not_a_number (s : str) :
  match s with
  | [] => True
  | c :: _ => isAnyDigit c = false /\ isWhiteSpace c = false
              /\ c <> 0x2D /\ c <> 0x2B
  end ->
  arabicIndicToNumber s = NaN
  /\ forall n, strictEq (arabicIndicToNumber s) n = false.
Proof.
  intros H.
  assert (E : arabicIndicToNumber s = NaN).
  { destruct s as [| c t]; [reflexivity |].
    destruct H as (Hd & Hw & Hm & Hp).
    unfold isAnyDigit in Hd. apply orb_false_iff in Hd as [Ha Hn].
    unfold arabicIndicToNumber. cbn [map].
    rewrite (toAscii_other _ Hn). unfold parseInt.
    rewrite (trimStart_head _ _ Hw).
    replace (c =? 0x2D) with false by lia.
    replace (c =? 0x2B) with false by lia.
    assert (E0 : (c =? 0x30) = false) by (unfold isAsciiDigit in Ha; lia).
    assert (Ep : parseDigits 10 0 false (c :: map toAscii t) = None)
      by (cbn [parseDigits]; now rewrite (digitValue_not_digit _ Ha)).
    destruct (map toAscii t) as [| c1 t'].
    - now rewrite Ep.
    - rewrite E0. cbn [andb]. now rewrite Ep. }
  split; [exact E |]. intros n. now rewrite E.
Qed.

(** The letter "a" in front of a numeral. *)
Lemma decoder_not_a_number_witness :
  arabicIndicToNumber [0x61; 0x661] = NaN.
Proof.
  apply (decoder_not_a_number [0x61; 0x661]).
  repeat split; (reflexivity || discriminate).
Defined.

Lemma digitFor_minus : digitFor 0x2D = None.
Proof. reflexivity. Qed.

(** [numberToArabicIndic] drops the sign of a negative number: "-" is no
    digit, its entry is [undefined] and [join] leaves it out. *)
Theorem marker_drops_sign (n : Z) :
  0 < n -> numberToArabicIndic (- n) = numberToArabicIndic n.
Proof.
  intros Hn. unfold numberToArabicIndic, toString.
  replace (- n <? 0) with true by lia.
  replace (n <? 0) with false by lia.
  rewrite Z.opp_involutive. cbn [flat_map].
  rewrite digitFor_minus. reflexivity.
Qed.

Lemma marker_drops_sign_witness :
  numberToArabicIndic (- 5) = [0x665].
Proof.
  change (numberToArabicIndic (Z.opp 5) = [0x665]).
  rewrite (marker_drops_sign 5); [reflexivity | lia].
Defined.

Lemma roundNat_large v :
  2 ^ 53 <= v ->
  roundNat v = PosInf \/ exists w, roundNat v = Fin w /\ 2 ^ 53 <= w.
Proof.
  intros Hv. unfold roundNat.
  destruct (Z.ltb_spec v (2 ^ 53)) as [? | _]; [lia |].
  set (e := Z.log2 v - 52).
  assert (Hlog : 53 <= Z.log2 v).
  { apply Z.log2_le_pow2; lia. }
  assert (He : 1 <= e) by (unfold e; lia).
  assert (Hpow : 2 ^ (52 + e) <= v).
  { replace (52 + e) with (Z.log2 v) by (unfold e; lia).
    apply Z.log2_spec. lia. }
  assert (H2e : 0 < 2 ^ e) by (apply Z.pow_pos_nonneg; lia).
  assert (Hq : 2 ^ 52 <= v / 2 ^ e).
  { apply Z.div_le_lower_bound; [lia |].
    rewrite Z.pow_add_r in Hpow by lia. lia. }
  set (q := v / 2 ^ e) in *.
  set (q' := if v mod 2 ^ e <? 2 ^ (e - 1) then q
             else if 2 ^ (e - 1) <? v mod 2 ^ e then q + 1
                  else if Z.even q then q else q + 1).
  assert (Hq' : q <= q') by
    (unfold q'; repeat match goal with
                       | |- context [if ?b then _ else _] => destruct b
                       end; lia).
  destruct (Z.leb_spec (2 ^ 1024) (q' * 2 ^ e)); [now left | right].
  eexists. split; [reflexivity |].
  assert (2 <= 2 ^ e).
  { change 2 with (2 ^ 1) at 1. apply Z.pow_le_mono_r; lia. }
  change (2 ^ 53) with (2 ^ 52 * 2). nia.
Qed.

Lemma roundNat_exact v n :
  0 <= v -> n < 2 ^ 53 -> roundNat v = Fin n -> v = n.
Proof.
  intros Hv Hn E.
  destruct (Z.lt_ge_cases v (2 ^ 53)) as [Hlt | Hge].
  - rewrite (roundNat_small _ Hlt) in E. now inversion E.
  - destruct (roundNat_large _ Hge) as [E' | (w & E' & Hw)];
      rewrite E' in E; [discriminate |]. inversion E. lia.
Qed.

Lemma markers_in_first_alphabet ds :
  forallb isAsciiDigit ds = true ->
  Forall (fun c => 0x660 <= c <= 0x669)
         (flat_map (fun d => match digitFor d with
                             | Some c => [c]
                             | None => []
                             end) ds).
Proof.
  induction ds as [| d ds IH]; intros Hall; [constructor |].
  cbn [forallb] in Hall. apply andb_true_iff in Hall as [Hd Hds].
  cbn [flat_map]. rewrite (digitFor_ascii _ Hd). cbn [app].
  constructor; [unfold isAsciiDigit in Hd; lia | now apply IH].
Qed.

(** For a number that [++] can reach exactly, the marker is written in
    the digits U+0660 to U+0669 (never the extended ones) and these digits
    read in base 10 give the number. *)
Theorem marker_is_decimal (n : Z) :
  0 <= n < 2 ^ 53 ->
  Forall (fun c => 0x660 <= c <= 0x669) (numberToArabicIndic n)
  /\ numberToArabicIndic n <> []
  /\ composeBase10 (numberToArabicIndic n) = n.
Proof.
  intros Hn.
  assert (Hnum : isNumberValue n) by (apply roundNat_small; lia).
  assert (Hr : 0 <= n < 10 ^ 21)
    by (assert (2 ^ 53 < 10 ^ 21) by reflexivity; lia).
  destruct (toString_plain n Hnum Hr) as (_ & Hall & _).
  destruct (numberToArabicIndic_spec n Hnum Hr) as (Hne & Hd & Hval).
  split; [now apply markers_in_first_alphabet |].
  split; [exact Hne |].
  rewrite (arabicIndicToNumber_digits _ Hne Hd) in Hval.
  apply roundNat_exact in Hval; [exact Hval | | lia].
  pose proof (composeBase10_bound (numberToArabicIndic n) 0 Hd ltac:(lia)).
  unfold composeBase10. lia.
Qed.

Lemma marker_is_decimal_witness :
  numberToArabicIndic 114 = [0x661; 0x661; 0x664]
  /\ composeBase10 (numberToArabicIndic 114) = 114.
Proof.
  split; [vm_compute; reflexivity |].
  apply (marker_is_decimal 114). split; [discriminate | reflexivity].
Defined.

(* ================================================================== *)
(** ** Further properties of the segmenter *)
(* ================================================================== *)

Lemma trimStart_app s t :
  blank s = false -> trimStart (s ++ t) = trimStart s ++ t.
Proof.
  induction s as [| c s IH]; [discriminate |].
  cbn [blank forallb app trimStart]. fold (blank s).
  destruct (isWhiteSpace c); [apply IH | reflexivity].
Qed.

Lemma blank_trimStart s : blank s = false -> blank (trimStart s) = false.
Proof.
  induction s as [| c s IH]; [discriminate |].
  cbn [blank forallb trimStart]. fold (blank s).
  destruct (isWhiteSpace c) eqn:E; [apply IH |].
  intros _. cbn [forallb]. now rewrite E.
Qed.

(** A white-space character at the end does not survive [trim]. *)
Lemma trim_snoc_ws s w : isWhiteSpace w = true -> trim (s ++ [w]) = trim s.
Proof.
  intros Hw. unfold trim, trimEnd.
  destruct (blank s) eqn:Hb.
  - rewrite (trimStart_blank s Hb), (trimStart_blank (s ++ [w]));
      [reflexivity |].
    rewrite blank_app, Hb. cbn. now rewrite Hw.
  - rewrite (trimStart_app _ _ Hb), rev_app_distr.
    cbn [rev app trimStart]. now rewrite Hw.
Qed.

Lemma In_trimStart_inv x s : In x (trimStart s) -> In x s.
Proof.
  destruct (trimStart_suffix s) as (pre & E & _).
  intros H. rewrite E. apply in_or_app. now right.
Qed.

(** [trim] adds no character. *)
Lemma In_trim_inv x s : In x (trim s) -> In x s.
Proof.
  unfold trim, trimEnd. intros H.
  apply in_rev, In_trimStart_inv, in_rev, In_trimStart_inv in H. exact H.
Qed.

(** The units pushed so far are never touched again. *)
Lemma step_prefix c st part :
  exists more, verses (step c st part) = verses st ++ more.
Proof.
  destruct (step_cases c st part)
    as [(_ & _ & ->) | [(_ & _ & ->) | (_ & ->)]]; cbn [verses].
  - destruct (pushVerse_cases (verses st) (expectedVerseNum st)
                              (trim (currentText st))) as [[_ ->] | [_ ->]].
    + now eexists.
    + exists []. now rewrite app_nil_r.
  - exists []. now rewrite app_nil_r.
  - exists []. now rewrite app_nil_r.
Qed.

Lemma scan_prefix c parts : forall st,
  exists more, verses (scan c parts st) = verses st ++ more.
Proof.
  induction parts as [| p parts IH]; intros st.
  - exists []. now rewrite app_nil_r.
  - cbn [scan fold_left]. fold (scan c parts (step c st p)).
    destruct (IH (step c st p)) as [more2 E2].
    destruct (step_prefix c st p) as [more1 E1].
    exists (more1 ++ more2). now rewrite E2, E1, app_assoc.
Qed.

Lemma finish_prefix st : exists more, finish st = verses st ++ more.
Proof.
  unfold finish.
  destruct (pushVerse_cases (verses st) (expectedVerseNum st)
                            (trim (currentText st))) as [[_ ->] | [_ ->]].
  - now eexists.
  - exists []. now rewrite app_nil_r.
Qed.

(** The text part that [split] cuts before a marker that follows the
    white-space character [w]. *)
Lemma split_text_marker c t w m rest :
  noNumeral t = true -> isWhiteSpace w = true ->
  m <> [] -> forallb isArabicIndicDigit m = true ->
  blank (firstn 1 rest) = true ->
  splitFrom c [] (t ++ [w] ++ m ++ rest)
  = match splitFrom c [] (tl rest) with
    | Some A =>
        Some (match c with
              | MID_STREAM => t
              | END_OF_UNIT => t ++ [w]
              end :: m :: A)
    | None => None
    end.
Proof.
  intros Ht Hw Hne Hall Hrest.
  assert (Hwd : isArabicIndicDigit w = false).
  { destruct (isArabicIndicDigit w) eqn:E; [| reflexivity].
    apply digit_not_space in E. congruence. }
  pose proof (matchMarker_marker m rest Hne Hall
                                 (blank_firstn_cases _ Hrest)) as Hm.
  destruct c.
  - rewrite splitFrom_skip_mid; [| assumption | right; cbn; exact Hwd].
    apply splitFrom_match. cbn [app matchAt]. now rewrite Hw.
  - rewrite app_assoc, splitFrom_skip_end.
    + apply splitFrom_match. exact Hm.
    + rewrite noNumeral_app, Ht. cbn. now rewrite Hwd.
Qed.

(** Whatever follows, a content that starts with a text, white space and
    a marker of value 1 gives that text as its first unit. *)
Theorem first_unit_closed_by_marker_one
        (c : convention) (t m rest : str) (w : Z) :
  noNumeral t = true -> blank t = false -> isWhiteSpace w = true ->
  isVerseNum m = true -> arabicIndicToNumber m = Fin 1 ->
  blank (firstn 1 rest) = true ->
  exists more,
    parseVersesFromContent c (t ++ [w] ++ m ++ rest)
    = Some (mkVerse 1 (trim t) :: more).
Proof.
  intros Ht Hb Hw Hv Hn Hrest.
  pose proof Hv as Hv'. unfold isVerseNum in Hv'.
  apply andb_true_iff in Hv' as [Hne Hall].
  assert (Hne' : m <> []) by (destruct m; [discriminate | congruence]).
  destruct (splitFrom_total c (tl rest) []) as [A EA].
  unfold parseVersesFromContent.
  change (split c ?s) with (splitFrom c [] s).
  rewrite (split_text_marker c t w m rest Ht Hw Hne' Hall Hrest), EA.
  set (tp := match c with MID_STREAM => t | END_OF_UNIT => t ++ [w] end).
  assert (Htp : isVerseNum tp = false).
  { apply isVerseNum_noNumeral. destruct c; [exact Ht |].
    unfold tp. rewrite noNumeral_app, Ht. cbn.
    destruct (isArabicIndicDigit w) eqn:E; [| reflexivity].
    apply digit_not_space in E. congruence. }
  assert (Htrim : trim tp = trim t).
  { destruct c; [reflexivity | now apply trim_snoc_ws]. }
  cbn [scan fold_left].
  rewrite (step_text c initial tp Htp).
  cbn [verses currentText expectedVerseNum initial].
  rewrite (step_accept c (mkState [] (appendText c [] tp) 1) m Hv Hn).
  cbn [verses currentText expectedVerseNum].
  rewrite appendText_empty, Htrim.
  unfold pushVerse at 1. rewrite (trim_nonblank _ Hb). cbn [app].
  fold (scan c A (mkState [mkVerse 1 (trim t)] [] (1 + 1))).
  destruct (scan_prefix c A (mkState [mkVerse 1 (trim t)] [] (1 + 1)))
    as [more1 E1].
  destruct (finish_prefix (scan c A (mkState [mkVerse 1 (trim t)] []
                                             (1 + 1)))) as [more2 E2].
  rewrite E2, E1. cbn [verses app]. now eexists.
Qed.

(** "a ٠١ ٧ ٧ b": the first unit is "a", whatever comes after "٠١". *)
Lemma first_unit_closed_by_marker_one_witness :
  exists more,
    parseVersesFromContent MID_STREAM
      [0x61; 0x20; 0x660; 0x661; 0x20; 0x667; 0x20; 0x667; 0x20; 0x62]
    = Some (mkVerse 1 [0x61] :: more).
Proof.
  apply (first_unit_closed_by_marker_one
           MID_STREAM [0x61] [0x660; 0x661]
           [0x20; 0x667; 0x20; 0x667; 0x20; 0x62] 0x20);
    reflexivity.
Defined.

(* ------------------------------------------------------------------ *)
(** *** Where the characters of a unit come from *)

Lemma matchAt_chars c s capture rest :
  matchAt c s = Some (capture, rest) ->
  (forall ch, In ch capture -> In ch s) /\ (forall ch, In ch rest -> In ch s).
Proof.
  assert (Hm : forall s capture rest,
             matchMarker s = Some (capture, rest) ->
             (forall ch, In ch capture -> In ch s)
             /\ (forall ch, In ch rest -> In ch s)).
  { clear. intros s capture rest. unfold matchMarker.
    destruct (digitRun s) as [run rest'] eqn:E.
    apply digitRun_spec in E as (-> & _ & _).
    destruct run as [| d run]; [discriminate |].
    destruct rest' as [| w rest'].
    - intros H; inversion H; subst. split; intros ch Hin.
      + apply in_or_app. now left.
      + destruct Hin.
    - destruct (isWhiteSpace w); [| discriminate].
      intros H; inversion H; subst. split; intros ch Hin.
      + apply in_or_app. now left.
      + apply in_or_app. right. now right. }
  destruct c; cbn [matchAt].
  - destruct s as [| w s']; [discriminate |].
    destruct (isWhiteSpace w); [| discriminate].
    intros H. apply Hm in H as [H1 H2].
    split; intros ch Hin; right; auto.
  - apply Hm.
Qed.

Lemma splitFrom_chars c s : forall T A,
  splitFrom c T s = Some A ->
  forall part ch, In part A -> In ch part -> In ch T \/ In ch s.
Proof.
  remember (length s) as n eqn:Hn.
  revert s Hn. induction n as [n IH] using lt_wf_ind.
  intros s Hn T A E part ch Hp Hch.
  destruct s as [| x s'].
  - rewrite splitFrom_nil in E. inversion E; subst A.
    destruct Hp as [<- | []]. now left.
  - destruct (matchAt c (x :: s')) as [[capture rest] |] eqn:Em.
    + rewrite (splitFrom_match _ _ _ _ _ Em) in E.
      pose proof (matchAt_spec _ _ _ _ Em) as [_ Hlen].
      apply matchAt_chars in Em as [Hc Hr].
      destruct (splitFrom c [] rest) as [A' |] eqn:E'; [| discriminate].
      inversion E; subst A.
      destruct Hp as [<- | [<- | Hp]]; [now left | right; auto |].
      destruct (IH (length rest) ltac:(subst n; exact Hlen) rest eq_refl
                   [] A' E' part ch Hp Hch) as [[] | Hin].
      right. auto.
    + rewrite (splitFrom_skip1 _ _ _ _ Em) in E.
      destruct (IH (length s') ltac:(subst n; simpl; lia) s' eq_refl
                   _ A E part ch Hp Hch) as [Hin | Hin].
      * apply in_app_or in Hin as [Hin | [<- | []]];
          [now left | right; now left].
      * right. now right.
Qed.

Lemma step_allowed c content st part :
  (forall ch, In ch part -> In ch content) ->
  (forall ch, In ch (currentText st) -> allowed c content ch) ->
  (forall v ch, In v (verses st) -> In ch (text v) -> allowed c content ch) ->
  (forall ch, In ch (currentText (step c st part)) -> allowed c content ch)
  /\ (forall v ch, In v (verses (step c st part)) -> In ch (text v) ->
                   allowed c content ch).
Proof.
  intros Hp Hcur Hvs.
  destruct (step_cases c st part)
    as [(_ & _ & ->) | [(_ & _ & ->) | (_ & ->)]];
    cbn [verses currentText].
  - split; [intros ch [] |]. intros v ch Hv Hch.
    destruct (pushVerse_cases (verses st) (expectedVerseNum st)
                              (trim (currentText st)))
      as [[_ E] | [_ E]]; rewrite E in Hv; [| eauto].
    apply in_app_or in Hv as [Hv | [<- | []]]; [eauto |].
    cbn [text] in Hch. apply In_trim_inv in Hch. auto.
  - split; [| exact Hvs]. intros ch Hin.
    destruct c; cbn [appendRejected] in Hin.
    + apply in_app_or in Hin as [Hin | Hin]; [auto |].
      apply in_app_or in Hin as [[<- | []] | Hin];
        [right; now split | left; auto].
    + apply in_app_or in Hin as [Hin | Hin]; [auto | left; auto].
  - split; [| exact Hvs]. intros ch Hin.
    destruct c; cbn [appendText] in Hin.
    + apply in_app_or in Hin as [Hin | Hin]; [auto |].
      apply in_app_or in Hin as [Hin | Hin]; [| left; auto].
      destruct (truthy (currentText st)); [| destruct Hin].
      destruct Hin as [<- | []]. right. now split.
    + apply in_app_or in Hin as [Hin | Hin]; [auto | left; auto].
Qed.

Lemma scan_allowed c content parts : forall st,
  (forall part ch, In part parts -> In ch part -> In ch content) ->
  (forall ch, In ch (currentText st) -> allowed c content ch) ->
  (forall v ch, In v (verses st) -> In ch (text v) -> allowed c content ch) ->
  (forall ch, In ch (currentText (scan c parts st)) -> allowed c content ch)
  /\ (forall v ch, In v (verses (scan c parts st)) -> In ch (text v) ->
                   allowed c content ch).
Proof.
  induction parts as [| p parts IH]; intros st Hp Hcur Hvs; [now split |].
  cbn [scan fold_left]. fold (scan c parts (step c st p)).
  destruct (step_allowed c content st p) as [H1 H2];
    [intros ch; apply Hp; now left | assumption | assumption |].
  apply IH; [| assumption | assumption].
  intros part ch Hin. apply Hp. now right.
Qed.

(** The segmenter invents no text: every character of every unit is a
    character of the content, or a space under the mid-stream convention;
    under the end-of-unit convention it is always one of the content. *)
Theorem unit_text_comes_from_content
        (c : convention) (content : str) (units : list Verse) :
  parseVersesFromContent c content = Some units ->
  forall v ch, In v units -> In ch (text v) ->
               In ch content \/ (c = MID_STREAM /\ ch = SPACE).
Proof.
  intros E v ch Hv Hch.
  destruct (parse_unfold c content) as (parts & Es & Ep).
  rewrite Ep in E. inversion E; subst units; clear E.
  change (split c content) with (splitFrom c [] content) in Es.
  destruct (scan_allowed c content parts initial) as [Hcur Hvs].
  - intros part x Hp Hx.
    destruct (splitFrom_chars _ _ _ _ Es part x Hp Hx) as [[] | H].
    exact H.
  - intros x [].
  - intros v' x [].
  - unfold finish in Hv.
    destruct (pushVerse_cases (verses (scan c parts initial))
                (expectedVerseNum (scan c parts initial))
                (trim (currentText (scan c parts initial))))
      as [[_ E] | [_ E]]; rewrite E in Hv; [| now apply (Hvs v)].
    apply in_app_or in Hv as [Hv | [<- | []]]; [now apply (Hvs v) |].
    cbn [text] in Hch. apply In_trim_inv in Hch. now apply Hcur.
Qed.

(** The "H" of "Hello" is a character of the content. *)
Lemma unit_text_comes_from_content_witness :
  In 0x48 helloWorld \/ (END_OF_UNIT = MID_STREAM /\ 0x48 = SPACE).
Proof.
  apply (unit_text_comes_from_content
           END_OF_UNIT helloWorld
           [mkVerse 1 [0x48; 0x65; 0x6C; 0x6C; 0x6F];
            mkVerse 2 [0x57; 0x6F; 0x72; 0x6C; 0x64]]
           ltac:(vm_compute; reflexivity)
           (mkVerse 1 [0x48; 0x65; 0x6C; 0x6C; 0x6F]) 0x48).
  - now left.
  - now left.
Defined.

(* ------------------------------------------------------------------ *)
(** *** Without a marker 1 nothing is cut *)

Lemma composeBase10_snoc s c :
  composeBase10 (s ++ [c]) = composeBase10 s * 10 + digitOf c.
Proof. unfold composeBase10. now rewrite fold_left_app. Qed.

Lemma value_one_has_digit_one s :
  s <> [] -> forallb isArabicIndicDigit s = true -> composeBase10 s = 1 ->
  In 0x661 s \/ In 0x6F1 s.
Proof.
  intros Hne Hall Hval.
  destruct (exists_last Hne) as (s' & c & ->).
  rewrite forallb_app in Hall. apply andb_true_iff in Hall as [Hs' Hc].
  cbn [forallb] in Hc. rewrite andb_true_r in Hc.
  rewrite composeBase10_snoc in Hval.
  pose proof (composeBase10_bound s' 0 Hs' ltac:(lia)) as Hb.
  fold (composeBase10 s') in Hb.
  pose proof (digitOf_range _ Hc) as Hd.
  assert (Hone : digitOf c = 1) by lia.
  unfold digitOf in Hone. unfold isArabicIndicDigit in Hc.
  destruct (Z.ltb_spec c 0x6F0).
  - left. apply in_or_app. right. left. lia.
  - right. apply in_or_app. right. left. lia.
Qed.

Lemma accepted_one_has_digit_one part :
  isVerseNum part = true ->
  strictEq (arabicIndicToNumber part) (Fin 1) = true ->
  In 0x661 part \/ In 0x6F1 part.
Proof.
  intros Hv Ha. unfold isVerseNum in Hv.
  apply andb_true_iff in Hv as [Hne Hall].
  assert (Hne' : part <> []) by (destruct part; [discriminate | congruence]).
  apply strictEq_Fin in Ha.
  rewrite (arabicIndicToNumber_digits _ Hne' Hall) in Ha.
  apply roundNat_exact in Ha; [| | reflexivity].
  - now apply value_one_has_digit_one.
  - pose proof (composeBase10_bound part 0 Hall ltac:(lia)).
    unfold composeBase10. lia.
Qed.

Lemma scan_without_one c parts : forall st,
  (forall part, In part parts -> ~ In 0x661 part /\ ~ In 0x6F1 part) ->
  verses st = [] -> expectedVerseNum st = 1 ->
  verses (scan c parts st) = [] /\ expectedVerseNum (scan c parts st) = 1.
Proof.
  induction parts as [| p parts IH]; intros st Hp Hv He; [now split |].
  cbn [scan fold_left]. fold (scan c parts (step c st p)).
  apply IH; [intros part Hin; apply Hp; now right | |];
    destruct (step_cases c st p)
      as [(Hvn & Ha & _) | [(_ & _ & ->) | (_ & ->)]];
    try assumption.
  all: rewrite He in Ha;
    destruct (accepted_one_has_digit_one p Hvn Ha) as [H | H];
    destruct (Hp p (or_introl eq_refl)); contradiction.
Qed.

(** A content without the character "١" or "۱" has no marker of value 1:
    no marker is ever accepted, and the result is at most one unit,
    numbered 1. *)
Theorem no_digit_one_no_cut (c : convention) (content : str) :
  ~ In 0x661 content -> ~ In 0x6F1 content ->
  exists units,
    parseVersesFromContent c content = Some units
    /\ (units = [] \/ exists t, units = [mkVerse 1 t]).
Proof.
  intros H1 H2.
  destruct (parse_unfold c content) as (parts & Es & Ep).
  change (split c content) with (splitFrom c [] content) in Es.
  eexists. split; [exact Ep |].
  destruct (scan_without_one c parts initial) as [Hv He];
    [| reflexivity | reflexivity |].
  - intros part Hin. split; intros Hx;
      destruct (splitFrom_chars _ _ _ _ Es part _ Hin Hx) as [[] | Hc];
      contradiction.
  - unfold finish, pushVerse. rewrite Hv, He.
    destruct (truthy _); [right; now eexists | now left].
Qed.

(** "x ٢ y ٣": one unit, the whole text. *)
Lemma no_digit_one_no_cut_witness :
  exists units,
    parseVersesFromContent END_OF_UNIT
      [0x78; 0x20; 0x662; 0x20; 0x79; 0x20; 0x663] = Some units
    /\ (units = [] \/ exists t, units = [mkVerse 1 t]).
Proof.
  apply (no_digit_one_no_cut END_OF_UNIT
           [0x78; 0x20; 0x662; 0x20; 0x79; 0x20; 0x663]);
    intros H; repeat (destruct H as [H | H]; [discriminate H |]);
    exact H.
Defined.

(** The bound on the verse numbers, on an example. *)
Lemma verse_numbers_bounded_witness :
  Forall (fun v => 1 <= number v <= 2 * Z.of_nat (length helloWorld) + 2)
         [mkVerse 1 [0x48; 0x65; 0x6C; 0x6C; 0x6F];
          mkVerse 2 [0x57; 0x6F; 0x72; 0x6C; 0x64]].
Proof.
  apply (verse_numbers_bounded END_OF_UNIT helloWorld).
  vm_compute. reflexivity.
Defined.

(* ------------------------------------------------------------------ *)
(** *** A document in the described format *)

Lemma trim_text_ws t w :
  trimmed t = true -> truthy t = true -> isWhiteSpace w = true ->
  trim (t ++ [w]) = t.
Proof.
  intros Ht _ Hw. rewrite (trim_snoc_ws _ _ Hw). now apply trim_id.
Qed.

(** The text of a good unit and its marker put the unit back, whatever
    white-space character stands between them. *)
Lemma step_item c w1 v vs :
  goodVerse v = true -> plainText v = true -> 0 <= number v < 2 ^ 53 ->
  isWhiteSpace w1 = true ->
  scan c [match c with
          | MID_STREAM => text v
          | END_OF_UNIT => text v ++ [w1]
          end; numberToArabicIndic (number v)]
       (mkState vs [] (number v))
  = mkState (vs ++ [v]) [] (number v + 1).
Proof.
  intros Hg Hp Hn Hw.
  destruct (goodVerse_spec _ Hg) as (Ht & Htr & _).
  destruct (marker_spec _ Hn) as (Hv & _ & _ & Hval).
  unfold plainText in Hp.
  set (tp := match c with
             | MID_STREAM => text v
             | END_OF_UNIT => text v ++ [w1]
             end).
  assert (Htp : isVerseNum tp = false).
  { apply isVerseNum_noNumeral. destruct c; [exact Hp |].
    unfold tp. rewrite noNumeral_app, Hp. cbn.
    destruct (isArabicIndicDigit w1) eqn:E; [| reflexivity].
    apply digit_not_space in E. congruence. }
  assert (Htrim : trim tp = text v).
  { destruct c; [now apply trim_id | now apply trim_text_ws]. }
  cbn [scan fold_left].
  rewrite (step_text c _ tp Htp).
  cbn [verses currentText expectedVerseNum].
  rewrite (step_accept c (mkState vs (appendText c [] tp) (number v)) _
                       Hv Hval).
  cbn [verses currentText expectedVerseNum].
  rewrite appendText_empty, Htrim.
  unfold pushVerse. rewrite Ht. now destruct v.
Qed.

Lemma scan_app c A B st : scan c (A ++ B) st = scan c B (scan c A st).
Proof. apply fold_left_app. Qed.

(** The items of a document are cut and put back one after the other;
    what follows them is segmented from the state they leave. *)
Lemma document_prefix c w1 w2 units :
  isWhiteSpace w1 = true -> isWhiteSpace w2 = true ->
  forall vs e hi rest A0,
    forallb goodVerse units = true -> forallb plainText units = true ->
    consecutive e (numbers units) hi -> 0 <= e -> hi <= 2 ^ 53 ->
    splitFrom c [] rest = Some A0 ->
    exists P,
      splitFrom c [] (concat (map (verseItem w1 w2) units) ++ rest)
      = Some (P ++ A0)
      /\ scan c P (mkState vs [] e) = mkState (vs ++ units) [] hi.
Proof.
  intros Hw1 Hw2.
  induction units as [| v units IH]; intros vs e hi rest A0 Hg Hp Hc He Hhi E0.
  - exists []. cbn in Hc. subst hi. cbn. now rewrite app_nil_r.
  - cbn [forallb] in Hg, Hp. cbn [numbers map consecutive] in Hc.
    apply andb_true_iff in Hg as [Hgv Hg].
    apply andb_true_iff in Hp as [Hpv Hp].
    destruct Hc as [Hnum Hc].
    pose proof (consecutive_length _ _ _ Hc) as Hlen.
    assert (Hn : 0 <= number v < 2 ^ 53) by lia.
    destruct (IH (vs ++ [v]) (e + 1) hi rest A0 Hg Hp Hc ltac:(lia) Hhi E0)
      as (P & EP & HP).
    destruct (marker_spec _ Hn) as (_ & Hall & Hne & _).
    exists (match c with
            | MID_STREAM => text v
            | END_OF_UNIT => text v ++ [w1]
            end :: numberToArabicIndic (number v) :: P).
    split.
    + cbn [map concat]. unfold verseItem at 1.
      rewrite <- !app_assoc.
      rewrite (split_text_marker c (text v) w1
                 (numberToArabicIndic (number v))
                 ([w2] ++ concat (map (verseItem w1 w2) units) ++ rest));
        [| exact Hpv | exact Hw1 | exact Hne | exact Hall
         | cbn; now rewrite Hw2].
      cbn [app tl]. now rewrite EP.
    + change (?a :: ?b :: P) with ([a; b] ++ P).
      rewrite scan_app. rewrite <- Hnum.
      rewrite (step_item c w1 v vs Hgv Hpv Hn Hw1), Hnum.
      rewrite <- app_assoc in HP. exact HP.
Qed.

Lemma concat_items_snoc w1 w2 units v :
  concat (map (verseItem w1 w2) (units ++ [v]))
  = (concat (map (verseItem w1 w2) units)
     ++ text v ++ [w1] ++ numberToArabicIndic (number v)) ++ [w2].
Proof.
  rewrite map_app, concat_app. cbn [map concat]. unfold verseItem at 2.
  now rewrite app_nil_r, <- !app_assoc.
Qed.

Lemma startsClean_app s t :
  truthy s = true -> startsClean s = true -> startsClean (s ++ t) = true.
Proof. destruct s; [discriminate | trivial]. Qed.

(** A document without its last white-space character is trimmed: it
    starts with the text of a unit and ends with a digit. *)
Lemma document_trimmed w1 w2 units v :
  forallb goodVerse (units ++ [v]) = true -> 0 <= number v < 2 ^ 53 ->
  trimmed (concat (map (verseItem w1 w2) units)
           ++ text v ++ [w1] ++ numberToArabicIndic (number v)) = true.
Proof.
  intros Hg Hn. unfold trimmed. apply andb_true_iff. split.
  - destruct units as [| u units].
    + cbn [app forallb] in Hg. rewrite andb_true_r in Hg.
      destruct (goodVerse_spec _ Hg) as (Ht & Htr & _).
      unfold trimmed in Htr. apply andb_true_iff in Htr as [Hs _].
      cbn [map concat app]. now apply startsClean_app.
    + cbn [app forallb] in Hg. apply andb_true_iff in Hg as [Hgu _].
      destruct (goodVerse_spec _ Hgu) as (Ht & Htr & _).
      unfold trimmed in Htr. apply andb_true_iff in Htr as [Hs _].
      cbn [map concat]. unfold verseItem at 1.
      rewrite <- !app_assoc. now apply startsClean_app.
  - destruct (marker_spec _ Hn) as (_ & Hall & Hne & _).
    rewrite !app_assoc, rev_app_distr.
    destruct (exists_last Hne) as (m' & d & Em). rewrite Em.
    rewrite rev_app_distr. cbn [rev app startsClean].
    rewrite Em, forallb_app in Hall.
    apply andb_true_iff in Hall as [_ Hd]. cbn [forallb] in Hd.
    rewrite andb_true_r in Hd. now rewrite (digit_not_space _ Hd).
Qed.

Lemma forallb_snoc {A} (p : A -> bool) l x :
  forallb p (l ++ [x]) = true -> forallb p l = true /\ p x = true.
Proof.
  rewrite forallb_app. cbn. rewrite andb_true_r. apply andb_true_iff.
Qed.

Lemma consecutive_snoc_inv ns : forall lo hi n,
  consecutive lo (ns ++ [n]) hi -> consecutive lo ns n /\ hi = n + 1.
Proof.
  induction ns as [| m ns IH]; cbn; intros lo hi n H.
  - destruct H as [-> <-]. split; [reflexivity | lia].
  - destruct H as [H1 H2]. destruct (IH _ _ _ H2). auto.
Qed.

Lemma finish_after_empty c vs e :
  finish (scan c [[]] (mkState vs [] e)) = vs.
Proof.
  cbn [scan fold_left]. rewrite step_text by reflexivity.
  unfold finish, pushVerse. cbn [verses currentText expectedVerseNum].
  now rewrite appendText_empty.
Qed.

Lemma document_segmented
        (c : convention) (w1 w2 : Z) (units : list Verse) :
  isWhiteSpace w1 = true -> isWhiteSpace w2 = true ->
  forallb goodVerse units = true -> forallb plainText units = true ->
  (forall i v, nth_error units i = Some v -> number v = Z.of_nat i + 1) ->
  Z.of_nat (length units) < 2 ^ 53 ->
  parseVersesFromContent c (concat (map (verseItem w1 w2) units))
  = Some units
  /\ parseVersesFromContent c (trim (concat (map (verseItem w1 w2) units)))
     = Some units.
Proof.
  intros Hw1 Hw2 Hg Hp Hnum Hlen.
  assert (Hc : consecutive 1 (numbers units)
                           (1 + Z.of_nat (length units))).
  { apply consecutive_of_nth. intros i v Hi. rewrite (Hnum i v Hi). lia. }
  split.
  - destruct (document_prefix c w1 w2 units Hw1 Hw2 [] 1 _ [] [[]]
                Hg Hp Hc ltac:(lia) ltac:(lia) eq_refl) as (P & EP & HP).
    rewrite app_nil_r in EP.
    unfold parseVersesFromContent.
    change (split c ?s) with (splitFrom c [] s).
    rewrite EP, scan_app. fold initial in HP. rewrite HP.
    now rewrite finish_after_empty.
  - destruct units as [| u0 units0] eqn:Eu; [now destruct c |].
    assert (Hne : units <> []) by (subst; discriminate).
    rewrite <- Eu in *. clear Eu u0 units0.
    destruct (exists_last Hne) as (units' & v & ->).
    apply forallb_snoc in Hp as [Hp Hpv].
    pose proof Hg as Hg'. apply forallb_snoc in Hg' as [Hg' Hgv].
    unfold numbers in Hc. rewrite map_app in Hc. cbn [map] in Hc.
    apply consecutive_snoc_inv in Hc as [Hc Hhi].
    rewrite length_app in Hhi, Hlen. cbn [length] in Hhi, Hlen.
    assert (Hn : 0 <= number v < 2 ^ 53).
    { pose proof (consecutive_length _ _ _ Hc). lia. }
    destruct (marker_spec _ Hn) as (_ & Hall & Hne' & _).
    rewrite concat_items_snoc, (trim_snoc_ws _ _ Hw2).
    rewrite (trim_id _ (document_trimmed w1 w2 units' v Hg Hn)).
    assert (Elast : splitFrom c []
                      (text v ++ [w1] ++ numberToArabicIndic (number v))
                    = Some [match c with
                            | MID_STREAM => text v
                            | END_OF_UNIT => text v ++ [w1]
                            end; numberToArabicIndic (number v); []]).
    { pose proof (split_text_marker c (text v) w1
                    (numberToArabicIndic (number v)) []
                    Hpv Hw1 Hne' Hall eq_refl) as H.
      rewrite app_nil_r in H. exact H. }
    destruct (document_prefix c w1 w2 units' Hw1 Hw2 [] 1 (number v) _ _
                Hg' Hp Hc ltac:(lia) ltac:(lia) Elast) as (P & EP & HP).
    unfold parseVersesFromContent.
    change (split c ?s) with (splitFrom c [] s).
    rewrite EP, scan_app. fold initial in HP. rewrite HP.
    change [?a; ?b; []] with ([a; b] ++ [[]]).
    rewrite scan_app. cbn [app].
    rewrite (step_item c w1 v units' Hgv Hpv Hn Hw1).
    now rewrite finish_after_empty.
Qed.

(** In both conventions, a document in the format that the batch script
    describes (for each verse its text, a white-space character, its
    number, a white-space character) is segmented into exactly its
    verses, as it is and once trimmed as the callers trim it. *)
Theorem document_is_segmented
        (c : convention) (w1 w2 : Z) (units : list Verse) :
  isWhiteSpace w1 = true -> isWhiteSpace w2 = true ->
  forallb goodVerse units = true -> forallb plainText units = true ->
  (forall i v, nth_error units i = Some v -> number v = Z.of_nat i + 1) ->
  Z.of_nat (length units) < 2 ^ 53 ->
  parseVersesFromContent c (concat (map (verseItem w1 w2) units))
  = Some units
  /\ parseVersesFromContent c (trim (concat (map (verseItem w1 w2) units)))
     = Some units.
Proof. apply document_segmented. Qed.

(** "Hello" tab "١" line feed, "World" tab "٢" line feed. *)
Lemma document_is_segmented_witness :
  parseVersesFromContent END_OF_UNIT
    [0x48; 0x65; 0x6C; 0x6C; 0x6F; 0x09; 0x661; 0x0A;
     0x57; 0x6F; 0x72; 0x6C; 0x64; 0x09; 0x662; 0x0A]
  = Some [mkVerse 1 [0x48; 0x65; 0x6C; 0x6C; 0x6F];
          mkVerse 2 [0x57; 0x6F; 0x72; 0x6C; 0x64]].
Proof.
  apply (proj1 (document_is_segmented
                  END_OF_UNIT 0x09 0x0A
                  [mkVerse 1 [0x48; 0x65; 0x6C; 0x6C; 0x6F];
                   mkVerse 2 [0x57; 0x6F; 0x72; 0x6C; 0x64]]
                  eq_refl eq_refl eq_refl eq_refl
                  ltac:(intros [| [| [| i]]] v Hi; cbn in Hi;
                        inversion Hi; reflexivity)
                  eq_refl)).
Defined.

(* ================================================================== *)
(** ** The callers of the segmenter *)
(* ================================================================== *)

(** The batch script on a payload in the format it describes: the header,
    a blank line, the Bismillah (not for At-Tawbah, which has none, nor
    for Al-Fatihah, where it is the first verse), then one item for each
    verse.  It returns exactly these verses, and the Bismillah trimmed. *)
Theorem fetchSurah_reads_document
        (name sura header blankLine bis statusText : str)
        (status w1 w2 : Z) (units : list Verse) :
  truthy sura = true ->
  isWhiteSpace w1 = true -> isWhiteSpace w2 = true ->
  forallb goodVerse units = true -> forallb plainText units = true ->
  (forall i v, nth_error units i = Some v -> number v = Z.of_nat i + 1) ->
  Z.of_nat (length units) < 2 ^ 53 ->
  let special := strEq name NO_BISMILLAH_SURAH || strEq name FATIHAH_SURAH in
  let items := header :: blankLine
               :: (if special then [] else [bis])
               ++ map (verseItem w1 w2) units in
  fetchSurah name
    (mkResponse true status statusText (mkRawData (Some sura) (Some items)))
  = Some (Returned
            (Surah.mkSurahData sura (if special then [] else trim bis)
                               units (trim (join items)))).
Proof.
  intros Hs Hw1 Hw2 Hg Hp Hnum Hlen.
  destruct (document_segmented END_OF_UNIT w1 w2 units
              Hw1 Hw2 Hg Hp Hnum Hlen) as [_ E].
  cbv zeta. unfold fetchSurah.
  cbn [ok negb json NameofSura TextofSura]. rewrite Hs. cbn [negb].
  destruct (strEq name NO_BISMILLAH_SURAH);
    [| destruct (strEq name FATIHAH_SURAH)];
    cbn [orb skipn app join bismillahOf nth_error];
    unfold join in *; now rewrite E.
Qed.

(** Al-Fatihah: the item of the Bismillah is the first verse. *)
Lemma fetchSurah_reads_document_witness :
  fetchSurah FATIHAH_SURAH
    (mkResponse true 200 []
       (mkRawData (Some FATIHAH_SURAH)
          (Some [[0x68]; [0x0A];
                 [0x61; 0x20; 0x661; 0x0A];
                 [0x62; 0x20; 0x662; 0x0A]])))
  = Some (Returned
            (Surah.mkSurahData FATIHAH_SURAH []
               [mkVerse 1 [0x61]; mkVerse 2 [0x62]]
               [0x68; 0x0A; 0x61; 0x20; 0x661; 0x0A; 0x62; 0x20; 0x662])).
Proof.
  apply (fetchSurah_reads_document
           FATIHAH_SURAH FATIHAH_SURAH [0x68] [0x0A] [] [] 200 0x20 0x0A
           [mkVerse 1 [0x61]; mkVerse 2 [0x62]]
           eq_refl eq_refl eq_refl eq_refl eq_refl
           ltac:(intros [| [| [| i]]] v Hi; cbn in Hi;
                 inversion Hi; reflexivity)
           eq_refl).
Defined.

(** The route on a response that is not ok: it answers with an error
    whose status may carry a body, the status of that response where
    [NextResponse.json] takes it and 500 from the [catch] block where it
    throws. *)
Lemma GET_not_ok (response : Response) :
  ok response = false ->
  GET response
  = Some (if jsonThrows (status response)
          then ErrorJson ScrapeFailed 500
          else ErrorJson (HttpFailure (status response)
                                      (statusText response))
                         (status response))
  /\ exists f s, GET response = Some (ErrorJson f s)
                 /\ jsonThrows s = false.
Proof.
  intros Hok. unfold GET. rewrite Hok. cbn [negb].
  split; [now destruct (jsonThrows (status response)) |].
  destruct (jsonThrows (status response)) eqn:E.
  - exists ScrapeFailed, 500. split; reflexivity.
  - exists (HttpFailure (status response) (statusText response)),
           (status response).
    split; [reflexivity | exact E].
Qed.

(** A response "304 Not Modified" is answered with 500, a response
    "404 Not Found" with 404. *)
Lemma GET_not_ok_witness :
  GET (mkResponse false 304 [] (mkRawData None None))
  = Some (ErrorJson ScrapeFailed 500)
  /\ GET (mkResponse false 404 [] (mkRawData None None))
     = Some (ErrorJson (HttpFailure 404 []) 404).
Proof.
  split.
  - exact (proj1 (GET_not_ok (mkResponse false 304 [] (mkRawData None None))
                             eq_refl)).
  - exact (proj1 (GET_not_ok (mkResponse false 404 [] (mkRawData None None))
                             eq_refl)).
Defined.

(** The route on a payload of the same format, the Bismillah always being
    the third item: it returns exactly the verses, and the Bismillah
    trimmed. *)
Theorem GET_reads_document
        (sura header blankLine bis statusText : str)
        (status w1 w2 : Z) (units : list Verse) :
  truthy sura = true ->
  isWhiteSpace w1 = true -> isWhiteSpace w2 = true ->
  forallb goodVerse units = true -> forallb plainText units = true ->
  (forall i v, nth_error units i = Some v -> number v = Z.of_nat i + 1) ->
  Z.of_nat (length units) < 2 ^ 53 ->
  let items := header :: blankLine :: bis
               :: map (verseItem w1 w2) units in
  GET (mkResponse true status statusText
                  (mkRawData (Some sura) (Some items)))
  = Some (Json (Surah.mkSurahData sura (trim bis) units
                                  (trim (join items)))).
Proof.
  intros Hs Hw1 Hw2 Hg Hp Hnum Hlen.
  destruct (document_segmented MID_STREAM w1 w2 units
              Hw1 Hw2 Hg Hp Hnum Hlen) as [_ E].
  cbv zeta. unfold GET.
  cbn [ok negb json NameofSura TextofSura]. rewrite Hs.
  cbn [negb skipn bismillahOf nth_error].
  unfold join in *. now rewrite E.
Qed.

Lemma GET_reads_document_witness :
  GET (mkResponse true 200 []
         (mkRawData (Some [0x73])
            (Some [[0x68]; [0x0A]; [0x20; 0x42; 0x0A];
                   [0x61; 0x20; 0x661; 0x0A];
                   [0x62; 0x20; 0x662; 0x0A]])))
  = Some (Json
            (Surah.mkSurahData [0x73] [0x42]
               [mkVerse 1 [0x61]; mkVerse 2 [0x62]]
               [0x68; 0x0A; 0x20; 0x42; 0x0A;
                0x61; 0x20; 0x661; 0x0A; 0x62; 0x20; 0x662])).
Proof.
  apply (GET_reads_document
           [0x73] [0x68] [0x0A] [0x20; 0x42; 0x0A] [] 200 0x20 0x0A
           [mkVerse 1 [0x61]; mkVerse 2 [0x62]]
           eq_refl eq_refl eq_refl eq_refl eq_refl
           ltac:(intros [| [| [| i]]] v Hi; cbn in Hi;
                 inversion Hi; reflexivity)
           eq_refl).
Defined.

Lemma skipn_short {A} (l : list A) n : (length l <= n)%nat -> skipn n l = [].
Proof. intros H. apply skipn_all2. exact H. Qed.

(** A payload of at most two items (no Bismillah, no verse) is no error
    for either caller: both return a surah without Bismillah and without
    verses. *)
Theorem short_payload_gives_no_verse
        (name sura statusText : str) (status : Z) (items : list str) :
  truthy sura = true -> (length items <= 2)%nat ->
  let response := mkResponse true status statusText
                             (mkRawData (Some sura) (Some items)) in
  fetchSurah name response
  = Some (Returned (Surah.mkSurahData sura [] [] (trim (join items))))
  /\ GET response
     = Some (Json (Surah.mkSurahData sura [] [] (trim (join items)))).
Proof.
  intros Hs Hlen. cbv zeta. unfold fetchSurah, GET.
  cbn [ok negb json NameofSura TextofSura]. rewrite Hs. cbn [negb].
  assert (E2 : skipn 2 items = []) by (apply skipn_short; lia).
  assert (E3 : skipn 3 items = []) by (apply skipn_short; lia).
  assert (Eb : bismillahOf items = []).
  { unfold bismillahOf.
    destruct (nth_error items 2) eqn:E; [| reflexivity].
    assert (nth_error items 2 <> None) by congruence.
    apply nth_error_Some in H. lia. }
  rewrite E2, E3, Eb.
  split; [| reflexivity].
  destruct (strEq name NO_BISMILLAH_SURAH);
    [| destruct (strEq name FATIHAH_SURAH)]; reflexivity.
Qed.

(** Only the header and the blank line. *)
Lemma short_payload_gives_no_verse_witness :
  GET (mkResponse true 200 []
                  (mkRawData (Some [0x73]) (Some [[0x20; 0x68]; [0x0A]])))
  = Some (Json (Surah.mkSurahData [0x73] [] [] [0x68])).
Proof.
  apply (short_payload_gives_no_verse [] [0x73] [] 200 [[0x20; 0x68]; [0x0A]]);
    [reflexivity | cbn; lia].
Defined.

(* ================================================================== *)
(** ** The position-based routine [parseVerses] *)
(* ================================================================== *)

Lemma matchStandalone_spec s capture rest :
  matchStandalone s = Some (capture, rest) ->
  exists w w2,
    s = w :: capture ++ w2 :: rest
    /\ isWhiteSpace w = true /\ isWhiteSpace w2 = true
    /\ isVerseNum capture = true.
Proof.
  unfold matchStandalone. destruct s as [| w s']; [discriminate |].
  destruct (isWhiteSpace w) eqn:Ew; [| discriminate].
  destruct (digitRun s') as [run rest'] eqn:E.
  apply digitRun_spec in E as (-> & Hall & _).
  destruct run as [| d run]; [discriminate |].
  destruct rest' as [| w2 rest']; [discriminate |].
  destruct (isWhiteSpace w2) eqn:Ew2; [| discriminate].
  intros H; inversion H; subst. exists w, w2.
  repeat split; assumption.
Qed.

Lemma firstn_full w (capture : str) w2 rest :
  firstn (length capture + 2) (w :: capture ++ w2 :: rest)
  = w :: capture ++ [w2].
Proof.
  replace (length capture + 2)%nat with (length (w :: capture ++ [w2]))
    by (cbn [length]; rewrite length_app; cbn [length]; lia).
  change (w :: capture ++ w2 :: rest) with ((w :: capture) ++ w2 :: rest).
  replace ((w :: capture) ++ w2 :: rest)
    with ((w :: capture ++ [w2]) ++ rest)
    by (cbn [app]; now rewrite <- app_assoc).
  rewrite firstn_app, Nat.sub_diag, firstn_all. cbn [firstn].
  now rewrite app_nil_r.
Qed.

Lemma execLoop_S fuel pos s lastVerseNum positions :
  execLoop (S fuel) pos s lastVerseNum positions
  = match s with
    | [] => Some positions
    | _ :: s' =>
        match matchStandalone s with
        | Some (capture, rest) =>
            let full := firstn (length capture + 2) s in
            if strictEq (arabicIndicToNumber capture)
                        (Fin (lastVerseNum + 1))
            then execLoop fuel (pos + length full) rest (lastVerseNum + 1)
                          (positions
                             ++ [mkPosition pos (lastVerseNum + 1) full])
            else execLoop fuel (pos + length full) rest
                          lastVerseNum positions
        | None => execLoop fuel (S pos) s' lastVerseNum positions
        end
    end.
Proof. reflexivity. Qed.

Lemma placed_weaken ft ps : forall start stop stop',
  placed ft start ps stop -> (stop <= stop')%nat -> placed ft start ps stop'.
Proof.
  induction ps as [| p ps IH]; cbn [placed]; intros start stop stop' H Hle.
  - lia.
  - destruct H as (H1 & H2 & H3). repeat split; try assumption.
    now apply (IH _ stop).
Qed.

Lemma placed_snoc ft ps : forall start stop p,
  placed ft start ps stop -> (stop <= index p)%nat -> markerAt ft p ->
  placed ft start (ps ++ [p]) (matchEnd p).
Proof.
  induction ps as [| q ps IH]; cbn [placed app]; intros start stop p H Hle Hm.
  - repeat split; [lia | assumption | lia].
  - destruct H as (H1 & H2 & H3). repeat split; try assumption.
    now apply (IH _ stop).
Qed.

(** The loop finishes; the positions it returns are matches of the text
    that do not overlap, numbered 1, 2, ... *)
Lemma execLoop_spec ft : forall fuel pos s last ps,
  (length s < fuel)%nat ->
  skipn pos ft = s -> (pos + length s = length ft)%nat ->
  placed ft 0 ps pos -> consecutive 1 (map num ps) (last + 1) ->
  exists ps' last',
    execLoop fuel pos s last ps = Some ps'
    /\ placed ft 0 ps' (length ft)
    /\ consecutive 1 (map num ps') (last' + 1).
Proof.
  induction fuel as [| fuel IH]; intros pos s last ps Hf Hs Hlen Hpl Hc;
    [lia |].
  rewrite execLoop_S. destruct s as [| x s'].
  - exists ps, last. cbn [length] in Hlen.
    split; [reflexivity |]. split; [| assumption].
    apply (placed_weaken _ _ _ pos); [assumption | lia].
  - destruct (matchStandalone (x :: s')) as [[capture rest] |] eqn:Em.
    + destruct (matchStandalone_spec _ _ _ Em)
        as (w & w2 & Es & Hw & Hw2 & Hv).
      cbv zeta. rewrite Es, firstn_full.
      set (full := w :: capture ++ [w2]).
      assert (Hfull : (length full = length capture + 2)%nat)
        by (unfold full; cbn [length]; rewrite length_app; cbn [length]; lia).
      assert (Hsl : (length (x :: s')
                     = length full + length rest)%nat).
      { rewrite Es, Hfull. cbn [length]. rewrite length_app.
        cbn [length]. lia. }
      assert (Hrest : skipn (pos + length full) ft = rest).
      { rewrite Nat.add_comm, <- skipn_skipn, Hs, Es.
        replace (w :: capture ++ w2 :: rest) with (full ++ rest)
          by (unfold full; cbn [app]; now rewrite <- app_assoc).
        rewrite skipn_app, Nat.sub_diag, skipn_all. reflexivity. }
      destruct (strictEq (arabicIndicToNumber capture) (Fin (last + 1)))
        eqn:Ea.
      * apply IH; [lia | exact Hrest | lia | |].
        -- apply (placed_snoc ft ps 0 pos
                              (mkPosition pos (last + 1) full));
             [assumption | cbn; lia |].
           exists w, capture, w2. cbn [fullMatch index num matchEnd].
           unfold matchEnd. cbn [fullMatch index].
           repeat split; try assumption.
           ++ now apply strictEq_Fin.
           ++ rewrite Hrest, Hs, Es. unfold full. cbn [app].
              now rewrite <- app_assoc.
           ++ lia.
        -- rewrite map_app. cbn [map num]. now apply consecutive_snoc.
      * apply IH; [lia | exact Hrest | lia | | assumption].
        apply (placed_weaken _ _ _ pos); [assumption | lia].
    + apply IH; [cbn [length] in Hf; lia | | cbn [length] in Hlen; lia
                 | | assumption].
      * replace (S pos) with (1 + pos)%nat by lia.
        rewrite <- skipn_skipn, Hs. reflexivity.
      * apply (placed_weaken _ _ _ pos); [assumption | lia].
Qed.

Lemma extractVerses_numbers ft ps : forall start,
  numbers (extractVerses ft start ps) = map num ps.
Proof.
  induction ps as [| p ps IH]; intros start; [reflexivity |].
  cbn [extractVerses numbers map number]. f_equal. apply IH.
Qed.

Lemma consecutive_last ns : forall lo hi n,
  consecutive lo (ns ++ [n]) hi -> hi = n + 1.
Proof. intros lo hi n H. now apply consecutive_snoc_inv in H. Qed.

Lemma consecutive_app ns ms : forall lo mid hi,
  consecutive lo ns mid -> consecutive mid ms hi ->
  consecutive lo (ns ++ ms) hi.
Proof.
  induction ns as [| n ns IH]; cbn; intros lo mid hi H1 H2.
  - now subst.
  - destruct H1 as [-> H1]. split; [reflexivity | now apply (IH _ mid)].
Qed.

Lemma parseVerses_unfold ft :
  exists ps last,
    parseVerses ft
    = Some (extractVerses ft 0 ps ++ lastVerse ft ps)
    /\ placed ft 0 ps (length ft)
    /\ consecutive 1 (map num ps) (last + 1).
Proof.
  destruct (execLoop_spec ft (S (length ft)) 0 ft 0 [])
    as (ps & last & E & Hpl & Hc);
    [lia | reflexivity | lia | cbn; lia | reflexivity |].
  exists ps, last. unfold parseVerses. rewrite E. auto.
Qed.

(** [parseVerses] numbers its verses 1, 2, 3, ... without a gap, for every
    text: each accepted marker closes a verse, which holds at least the
    marker. *)
Theorem parseVerses_numbers_without_gap (fullText : str) :
  exists verses,
    parseVerses fullText = Some verses
    /\ forall i v, nth_error verses i = Some v ->
                   number v = Z.of_nat i + 1.
Proof.
  destruct (parseVerses_unfold fullText) as (ps & last & E & _ & Hc).
  eexists. split; [exact E |]. intros i v Hi.
  assert (Hall : exists hi,
             consecutive 1 (numbers (extractVerses fullText 0 ps
                                     ++ lastVerse fullText ps)) hi).
  { rewrite numbers_app, extractVerses_numbers.
    unfold lastVerse.
    destruct (rev ps) as [| lastPos rps] eqn:Er.
    - exists (last + 1). now rewrite app_nil_r.
    - destruct (truthy _).
      + exists (num lastPos + 1 + 1).
        apply (consecutive_app _ _ _ (last + 1)); [assumption |].
        assert (Eps : ps = rev rps ++ [lastPos])
          by (rewrite <- (rev_involutive ps), Er; reflexivity).
        rewrite Eps, map_app in Hc. cbn [map] in Hc.
        apply consecutive_last in Hc.
        cbn [numbers map number consecutive]. split; lia.
      + exists (last + 1). now rewrite app_nil_r. }
  destruct Hall as [hi Hall].
  pose proof (consecutive_nth _ _ _ i (number v) Hall) as Hn.
  unfold numbers in Hn. rewrite nth_error_map, Hi in Hn.
  specialize (Hn eq_refl). lia.
Qed.

Lemma execLoop_no_match : forall fuel pos s last ps,
  (length s < fuel)%nat ->
  (forall s1 s2, s = s1 ++ s2 -> matchStandalone s2 = None) ->
  execLoop fuel pos s last ps = Some ps.
Proof.
  induction fuel as [| fuel IH]; intros pos s last ps Hf Hno; [lia |].
  rewrite execLoop_S. destruct s as [| x s']; [reflexivity |].
  rewrite (Hno [] (x :: s') eq_refl).
  apply IH; [cbn [length] in Hf; lia |].
  intros s1 s2 E. apply (Hno (x :: s1) s2). cbn [app]. now f_equal.
Qed.

Lemma numeral_in_tail (t m a z : str) (d : Z) :
  noNumeral t = true -> isArabicIndicDigit d = true ->
  t ++ m = a ++ d :: z -> exists a', m = a' ++ d :: z.
Proof.
  intros Ht Hd E. apply app_eq_app in E as [l [[E1 E2] | [E1 E2]]].
  - destruct l as [| x l].
    + exists []. cbn [app] in *. now symmetry.
    + cbn [app] in E2. inversion E2; subst x.
      rewrite E1, noNumeral_app in Ht. cbn in Ht. rewrite Hd in Ht.
      cbn in Ht. now rewrite andb_false_r in Ht.
  - now exists l.
Qed.

(** [parseVerses] finds no verse at all in a text without numerals, nor
    in a text whose only numeral stands at its very end: the pattern wants
    white space after the marker.  The text is then lost, where
    [parseVersesFromContent] would return it as a unit. *)
Theorem parseVerses_needs_space_after_marker (t m : str) :
  noNumeral t = true -> forallb isArabicIndicDigit m = true ->
  parseVerses (t ++ m) = Some [].
Proof.
  intros Ht Hm. unfold parseVerses.
  rewrite execLoop_no_match; [reflexivity | lia |].
  intros s1 s2 E.
  destruct (matchStandalone s2) as [[capture rest] |] eqn:Em;
    [| reflexivity].
  exfalso.
  destruct (matchStandalone_spec _ _ _ Em) as (w & w2 & -> & _ & Hw2 & Hv).
  unfold isVerseNum in Hv. apply andb_true_iff in Hv as [Hne Hall].
  destruct capture as [| d capture]; [discriminate |].
  cbn [forallb] in Hall. apply andb_true_iff in Hall as [Hd _].
  change (s1 ++ w :: (d :: capture) ++ w2 :: rest)
    with (s1 ++ w :: d :: (capture ++ w2 :: rest)) in E.
  replace (s1 ++ w :: d :: capture ++ w2 :: rest)
    with ((s1 ++ [w]) ++ d :: (capture ++ w2 :: rest)) in E
    by now rewrite <- app_assoc.
  destruct (numeral_in_tail _ _ _ _ _ Ht Hd E) as [a' Ea].
  rewrite Ea in Hm. rewrite forallb_app in Hm.
  apply andb_true_iff in Hm as [_ Hm]. cbn [forallb] in Hm.
  apply andb_true_iff in Hm as [_ Hm].
  rewrite forallb_app in Hm. apply andb_true_iff in Hm as [_ Hm].
  cbn [forallb] in Hm. apply andb_true_iff in Hm as [Hd2 _].
  apply digit_not_space in Hd2. congruence.
Qed.

(** "a ١": no verse, although the marker 1 is there. *)
Lemma parseVerses_needs_space_after_marker_witness :
  parseVerses [0x61; 0x20; 0x661] = Some []
  /\ parseVersesFromContent MID_STREAM [0x61; 0x20; 0x661]
     = Some [mkVerse 1 [0x61]].
Proof.
  split; [| vm_compute; reflexivity].
  apply (parseVerses_needs_space_after_marker [0x61; 0x20] [0x661]);
    reflexivity.
Defined.

(* ------------------------------------------------------------------ *)
(** *** The marker stays in the text of its verse *)

Lemma trimStart_keeps_suffix x run :
  startsClean run = true -> truthy run = true ->
  exists y, trimStart (x ++ run) = y ++ run.
Proof.
  intros Hc Ht. induction x as [| ch x [y IH]].
  - exists []. cbn [app]. now apply trimStart_id.
  - cbn [app trimStart]. destruct (isWhiteSpace ch).
    + now exists y.
    + now exists (ch :: x).
Qed.

Lemma trim_keeps_marker x run w2 :
  isVerseNum run = true -> isWhiteSpace w2 = true ->
  exists y, trim (x ++ run ++ [w2]) = y ++ run.
Proof.
  intros Hv Hw2. unfold isVerseNum in Hv.
  apply andb_true_iff in Hv as [Ht Hall].
  assert (Hne : run <> []) by (destruct run; [discriminate | congruence]).
  assert (Hs : startsClean run = true).
  { destruct run as [| d run]; [reflexivity |].
    cbn [forallb] in Hall. apply andb_true_iff in Hall as [Hd _].
    cbn. now rewrite (digit_not_space _ Hd). }
  assert (He : startsClean (rev run) = true).
  { destruct (exists_last Hne) as (r & d & ->).
    rewrite forallb_app in Hall. apply andb_true_iff in Hall as [_ Hd].
    cbn [forallb] in Hd. rewrite andb_true_r in Hd.
    rewrite rev_app_distr. cbn. now rewrite (digit_not_space _ Hd). }
  rewrite app_assoc, (trim_snoc_ws _ _ Hw2).
  destruct (trimStart_keeps_suffix x run Hs Ht) as [y Ey].
  exists y. unfold trim, trimEnd. rewrite Ey, rev_app_distr.
  rewrite trimStart_id.
  - now rewrite <- rev_app_distr, rev_involutive.
  - destruct (rev run) as [| d r] eqn:Er; [| exact He].
    apply (f_equal (@rev Z)) in Er. rewrite rev_involutive in Er.
    cbn in Er. congruence.
Qed.

(** The slice up to the end of a match is the text before the match
    followed by the match. *)
Lemma slice_to_match ft start p :
  (start <= index p)%nat -> markerAt ft p ->
  exists gap, slice ft start (matchEnd p) = gap ++ fullMatch p.
Proof.
  intros Hle (w & run & w2 & Ef & _ & _ & _ & _ & Esk & Hend).
  exists (firstn (index p - start) (skipn start ft)).
  unfold slice.
  assert (Hsplit : skipn start ft
                   = firstn (index p - start) (skipn start ft)
                     ++ fullMatch p ++ skipn (matchEnd p) ft).
  { rewrite <- Esk.
    replace (index p) with ((index p - start) + start)%nat at 2 by lia.
    rewrite <- skipn_skipn. symmetry. apply firstn_skipn. }
  set (gap := firstn (index p - start) (skipn start ft)) in *.
  assert (Hgap : length gap = (index p - start)%nat).
  { unfold gap. rewrite length_firstn, length_skipn.
    unfold matchEnd in Hend. lia. }
  rewrite Hsplit.
  replace (matchEnd p - start)%nat
    with (length (gap ++ fullMatch p))
    by (rewrite length_app, Hgap; unfold matchEnd; lia).
  rewrite app_assoc, firstn_app, Nat.sub_diag, firstn_all. cbn [firstn].
  now rewrite app_nil_r.
Qed.

Lemma extractVerses_keep_marker ft ps : forall start stop,
  placed ft start ps stop ->
  Forall (fun v => exists before marker,
              text v = before ++ marker
              /\ isVerseNum marker = true
              /\ arabicIndicToNumber marker = Fin (number v))
         (extractVerses ft start ps).
Proof.
  induction ps as [| p ps IH]; intros start stop H; [constructor |].
  cbn [placed] in H. destruct H as (Hle & Hm & Hpl).
  cbn [extractVerses]. constructor; [| now apply (IH _ stop)].
  destruct (slice_to_match ft start p Hle Hm) as [gap Eg].
  destruct Hm as (w & run & w2 & Ef & _ & Hw2 & Hv & Hn & _ & _).
  cbn [text number]. rewrite Eg, Ef.
  destruct (trim_keeps_marker (gap ++ [w]) run w2 Hv Hw2) as [y Ey].
  exists y, run. rewrite <- Ey. split; [| now split].
  f_equal. cbn [app]. now rewrite <- app_assoc.
Qed.

Lemma lastVerse_length ft ps : (length (lastVerse ft ps) <= 1)%nat.
Proof.
  unfold lastVerse. destruct (rev ps); [cbn; lia |].
  destruct (truthy _); cbn; lia.
Qed.

(** Every verse that [parseVerses] returns is well formed, and every verse
    but the last one keeps its own marker at the end of its text: the
    slice of a verse runs to the end of the match. *)
Theorem parseVerses_keeps_markers (fullText : str) (verses : list Verse) :
  parseVerses fullText = Some verses ->
  forallb goodVerse verses = true
  /\ forall i v, nth_error verses i = Some v ->
                 (S i < length verses)%nat ->
                 exists before marker,
                   text v = before ++ marker
                   /\ isVerseNum marker = true
                   /\ arabicIndicToNumber marker = Fin (number v).
Proof.
  intros E.
  destruct (parseVerses_unfold fullText) as (ps & last & E' & Hpl & _).
  rewrite E' in E. inversion E; subst verses; clear E E'.
  pose proof (extractVerses_keep_marker _ _ _ _ Hpl) as Hk.
  split.
  - rewrite forallb_app. apply andb_true_iff. split.
    + rewrite forallb_forall. intros v Hv.
      rewrite Forall_forall in Hk.
      destruct (Hk v Hv) as (before & marker & Et & Hm & _).
      unfold goodVerse. apply andb_true_iff. split.
      * rewrite Et. unfold isVerseNum in Hm.
        apply andb_true_iff in Hm as [Hm _].
        destruct before; [exact Hm | reflexivity].
      * clear - Hv. revert Hv. generalize 0%nat.
        induction ps as [| p ps IH]; intros start Hv; [destruct Hv |].
        destruct Hv as [<- | Hv]; [apply trim_trimmed | eauto].
    + unfold lastVerse. destruct (rev ps); [reflexivity |].
      destruct (truthy _) eqn:Et; [| reflexivity].
      cbn [forallb]. unfold goodVerse. cbn [text].
      now rewrite Et, trim_trimmed.
  - intros i v Hi Hlt. rewrite length_app in Hlt.
    pose proof (lastVerse_length fullText ps).
    rewrite nth_error_app1 in Hi by lia.
    rewrite Forall_forall in Hk. apply Hk.
    eapply nth_error_In. exact Hi.
Qed.

(** "a ١ b ٢ c": the verses are "a ١", "b ٢" and "c". *)
Lemma parseVerses_keeps_markers_witness :
  parseVerses [0x61; 0x20; 0x661; 0x20; 0x62; 0x20; 0x662; 0x20; 0x63]
  = Some [mkVerse 1 [0x61; 0x20; 0x661];
          mkVerse 2 [0x62; 0x20; 0x662];
          mkVerse 3 [0x63]]
  /\ exists before marker,
       [0x61; 0x20; 0x661] = before ++ marker
       /\ isVerseNum marker = true
       /\ arabicIndicToNumber marker = Fin 1.
Proof.
  split; [vm_compute; reflexivity |].
  apply (proj2 (parseVerses_keeps_markers
                  [0x61; 0x20; 0x661; 0x20; 0x62; 0x20; 0x662; 0x20; 0x63]
                  [mkVerse 1 [0x61; 0x20; 0x661];
                   mkVerse 2 [0x62; 0x20; 0x662];
                   mkVerse 3 [0x63]]
                  ltac:(vm_compute; reflexivity))
               0%nat (mkVerse 1 [0x61; 0x20; 0x661]) eq_refl).
  cbn. lia.
Defined.

(* ================================================================== *)
(** ** The lookup by name *)
(* ================================================================== *)

Lemma strEq_true a b : strEq a b = true <-> a = b.
Proof.
  unfold strEq. destruct (list_eq_dec Z.eq_dec a b); split;
    congruence || discriminate.
Qed.

Lemma strEq_refl a : strEq a a = true.
Proof. now apply strEq_true. Qed.

Lemma mapGet_mapSet {V} (m : list (str * V)) key value key' :
  mapGet (mapSet m key value) key'
  = if strEq key key' then Some value else mapGet m key'.
Proof.
  induction m as [| [k v] m IH]; cbn [mapSet mapGet].
  - reflexivity.
  - destruct (strEq k key) eqn:Ek; cbn [mapGet].
    + apply strEq_true in Ek. subst k.
      now destruct (strEq key key').
    + rewrite IH. destruct (strEq k key') eqn:Ek'; [| reflexivity].
      apply strEq_true in Ek'. subst k.
      destruct (strEq key key') eqn:E; [| reflexivity].
      apply strEq_true in E. subst key. now rewrite strEq_refl in Ek.
Qed.

Lemma find_snoc {A} (p : A -> bool) l x :
  find p (l ++ [x])
  = match find p l with
    | Some y => Some y
    | None => if p x then Some x else None
    end.
Proof.
  induction l as [| a l IH]; cbn [app find]; [reflexivity |].
  now destruct (p a).
Qed.

(** A map built from entries gives, for a key, the last entry with that
    key. *)
Lemma mapGet_fold {V} (entries : list (str * V)) : forall m key,
  mapGet (fold_left (fun m e => mapSet m (fst e) (snd e)) entries m) key
  = match find (fun e => strEq (fst e) key) (rev entries) with
    | Some e => Some (snd e)
    | None => mapGet m key
    end.
Proof.
  induction entries as [| e entries IH]; intros m key; [reflexivity |].
  cbn [fold_left rev]. rewrite IH, find_snoc, mapGet_mapSet.
  destruct (find _ (rev entries)); [reflexivity |].
  now destruct (strEq (fst e) key).
Qed.

Lemma find_map_entries {S} (nameOf : S -> str) key (l : list S) :
  find (fun e => strEq (fst e) key) (map (fun s => (nameOf s, s)) l)
  = option_map (fun s => (nameOf s, s))
               (find (fun s => strEq (nameOf s) key) l).
Proof.
  induction l as [| s l IH]; cbn [map find fst]; [reflexivity |].
  now destruct (strEq (nameOf s) key).
Qed.

Lemma find_last_unique {S} (nameOf : S -> str) (l : list S) s :
  NoDup (map nameOf l) -> In s l ->
  find (fun x => strEq (nameOf x) (nameOf s)) l = Some s.
Proof.
  induction l as [| a l IH]; intros Hnd Hin; [destruct Hin |].
  cbn [map] in Hnd. inversion Hnd as [| ? ? Hna Hnd']; subst.
  cbn [find]. destruct Hin as [-> | Hin].
  - now rewrite strEq_refl.
  - destruct (strEq (nameOf a) (nameOf s)) eqn:E; [| now apply IH].
    apply strEq_true in E. exfalso. apply Hna. rewrite E.
    now apply in_map.
Qed.

(** [loadSurah] shows the last surah of the data that bears the name and
    no error, or, when no surah bears it, the error message and no data.
    When the names are all different, every surah of the data is found by
    its name. *)
Theorem loadSurah_finds_by_name
        {S : Type} (nameOf : S -> str) (allSurahsData : list S) (name : str) :
  loadSurah nameOf allSurahsData name
  = match find (fun s => strEq (nameOf s) name) (rev allSurahsData) with
    | Some surah => (None, Some surah)
    | None => (Some (notFound name), None)
    end
  /\ ((forall s, In s allSurahsData -> nameOf s <> name) ->
      loadSurah nameOf allSurahsData name = (Some (notFound name), None))
  /\ (NoDup (map nameOf allSurahsData) ->
      forall s, In s allSurahsData ->
                loadSurah nameOf allSurahsData (nameOf s) = (None, Some s)).
Proof.
  assert (E : forall key,
             loadSurah nameOf allSurahsData key
             = match find (fun s => strEq (nameOf s) key)
                          (rev allSurahsData) with
               | Some surah => (None, Some surah)
               | None => (Some (notFound key), None)
               end).
  { intros key. unfold loadSurah, surahByName, newMap.
    rewrite mapGet_fold, <- map_rev, find_map_entries.
    now destruct (find _ (rev allSurahsData)). }
  split; [apply E |]. split.
  - intros Hno. rewrite E.
    destruct (find _ (rev allSurahsData)) as [s |] eqn:Ef; [| reflexivity].
    apply find_some in Ef as [Hin Hs]. apply strEq_true in Hs.
    apply in_rev in Hin. now destruct (Hno s Hin).
  - intros Hnd s Hin. rewrite E, (find_last_unique nameOf).
    + reflexivity.
    + rewrite map_rev. now apply NoDup_rev.
    + now apply in_rev in Hin.
Qed.

(** Two surahs, found by their names; a third name is not found. *)
Lemma loadSurah_finds_by_name_witness :
  loadSurah Surah.name
    [Surah.mkSurahData [0x61] [] [] []; Surah.mkSurahData [0x62] [] [] []]
    [0x62]
  = (None, Some (Surah.mkSurahData [0x62] [] [] []))
  /\ loadSurah Surah.name
       [Surah.mkSurahData [0x61] [] [] []; Surah.mkSurahData [0x62] [] [] []]
       [0x63]
     = (Some (notFound [0x63]), None).
Proof.
  split.
  - refine (proj2 (proj2 (loadSurah_finds_by_name
                            Surah.name
                            [Surah.mkSurahData [0x61] [] [] [];
                             Surah.mkSurahData [0x62] [] [] []] [0x62]))
                  _ (Surah.mkSurahData [0x62] [] [] []) _).
    + repeat constructor; cbn; intuition discriminate.
    + right. now left.
  - apply (proj1 (proj2 (loadSurah_finds_by_name
                           Surah.name
                           [Surah.mkSurahData [0x61] [] [] [];
                            Surah.mkSurahData [0x62] [] [] []] [0x63]))).
    intros s [<- | [<- | []]]; discriminate.
Defined.

(* ================================================================== *)
(** ** The text cleaned for the numeric values *)
(* ================================================================== *)

Lemma singleSpaced_cons x l :
  singleSpaced l -> isWhiteSpace x = false \/ startsClean l = true ->
  singleSpaced (x :: l).
Proof.
  intros Hl Hx l1 a b l2 E.
  destruct l1 as [| y l1]; cbn [app] in E; inversion E; subst.
  - destruct Hx as [Hx | Hx]; [now rewrite Hx |].
    cbn in Hx. apply negb_true_iff in Hx. rewrite Hx. apply andb_false_r.
  - now apply (Hl l1 a b l2).
Qed.

Lemma singleSpaced_suffix pre s : singleSpaced (pre ++ s) -> singleSpaced s.
Proof.
  intros H l1 a b l2 E. apply (H (pre ++ l1) a b l2).
  now rewrite E, app_assoc.
Qed.

Lemma singleSpaced_rev s : singleSpaced s -> singleSpaced (rev s).
Proof.
  intros H l1 a b l2 E.
  apply (f_equal (@rev Z)) in E. rewrite rev_involutive in E.
  rewrite rev_app_distr in E. cbn [rev] in E. rewrite <- !app_assoc in E.
  cbn [app] in E. rewrite andb_comm. now apply (H (rev l2) b a (rev l1)).
Qed.

Lemma singleSpaced_trim s : singleSpaced s -> singleSpaced (trim s).
Proof.
  intros H. unfold trim, trimEnd.
  apply singleSpaced_rev.
  destruct (trimStart_suffix (rev (trimStart s))) as (pre & E & _).
  apply (singleSpaced_suffix pre). rewrite <- E.
  apply singleSpaced_rev.
  destruct (trimStart_suffix s) as (pre' & E' & _).
  apply (singleSpaced_suffix pre'). now rewrite <- E'.
Qed.

Lemma collapse_shape text : forall inRun,
  singleSpaced (collapseWhiteSpace inRun text)
  /\ (inRun = true -> startsClean (collapseWhiteSpace inRun text) = true)
  /\ plainSpaces (collapseWhiteSpace inRun text).
Proof.
  induction text as [| ch text IH]; intros inRun.
  - cbn. repeat split; try reflexivity.
    + intros l1 a b l2 E. destruct l1; discriminate.
    + intros x [].
  - cbn [collapseWhiteSpace].
    destruct (isWhiteSpace ch) eqn:Ew.
    + destruct (IH true) as (H1 & H2 & H3).
      destruct inRun; cbn [app].
      * repeat split; auto.
      * repeat split; [| discriminate |].
        -- apply singleSpaced_cons; [assumption | right; now apply H2].
        -- intros x [<- | Hx] Hws; [reflexivity | now apply H3].
    + destruct (IH false) as (H1 & _ & H3).
      repeat split.
      * apply singleSpaced_cons; [assumption | now left].
      * intros _. cbn. now rewrite Ew.
      * intros x [<- | Hx] Hws; [congruence | now apply H3].
Qed.

Lemma cleanText_shape (text : str) :
  plainSpaces (cleanText text)
  /\ singleSpaced (cleanText text)
  /\ trimmed (cleanText text) = true.
Proof.
  unfold cleanText.
  destruct (collapse_shape (replaceNewlines text) false) as (H1 & _ & H3).
  split; [| split].
  - intros ch Hin. apply H3. now apply In_trim_inv.
  - now apply singleSpaced_trim.
  - apply trim_trimmed.
Qed.

(** The cleaned text is in normal form: the space is its only white-space
    character, never twice in a row, and never at either end. *)
Theorem cleanText_normal_form (text : str) :
  plainSpaces (cleanText text)
  /\ singleSpaced (cleanText text)
  /\ trimmed (cleanText text) = true.
Proof. apply cleanText_shape. Qed.

Lemma replaceNewlines_id s : plainSpaces s -> replaceNewlines s = s.
Proof.
  intros H. unfold replaceNewlines.
  rewrite <- (map_id s) at 2. apply map_ext_in. intros ch Hin.
  destruct (Z.eqb_spec ch 0x0A) as [-> | _]; [| reflexivity].
  now rewrite (H _ Hin eq_refl).
Qed.

Lemma singleSpaced_tail x s : singleSpaced (x :: s) -> singleSpaced s.
Proof. apply (singleSpaced_suffix [x]). Qed.

Lemma collapse_id s :
  plainSpaces s -> singleSpaced s ->
  forall inRun, (inRun = true -> startsClean s = true) ->
                collapseWhiteSpace inRun s = s.
Proof.
  induction s as [| ch s IH]; intros Hp Hs inRun Hrun; [reflexivity |].
  assert (Hp' : plainSpaces s) by (intros x Hx; apply Hp; now right).
  assert (Hs' : singleSpaced s) by now apply singleSpaced_tail in Hs.
  cbn [collapseWhiteSpace]. destruct (isWhiteSpace ch) eqn:Ew.
  - destruct inRun.
    + specialize (Hrun eq_refl). cbn in Hrun. now rewrite Ew in Hrun.
    + cbn [app]. rewrite (Hp ch (or_introl eq_refl) Ew). f_equal.
      apply IH; try assumption. intros _.
      destruct s as [| y s]; [reflexivity |].
      specialize (Hs [] ch y s eq_refl). rewrite Ew in Hs. cbn in Hs.
      cbn. now rewrite Hs.
  - f_equal. apply IH; try assumption. discriminate.
Qed.

(** Cleaning a text a second time changes nothing. *)
Theorem cleanText_idempotent (text : str) :
  cleanText (cleanText text) = cleanText text.
Proof.
  destruct (cleanText_shape text) as (Hp & Hs & Ht).
  unfold cleanText at 1.
  rewrite (replaceNewlines_id _ Hp).
  rewrite (collapse_id _ Hp Hs false) by discriminate.
  now apply trim_id.
Qed.

Lemma inkOf_app s t : inkOf (s ++ t) = inkOf s ++ inkOf t.
Proof. apply filter_app. Qed.

Lemma inkOf_rev s : inkOf (rev s) = rev (inkOf s).
Proof.
  induction s as [| ch s IH]; [reflexivity |].
  cbn [rev]. rewrite inkOf_app, IH. unfold inkOf at 2 3. cbn [filter].
  destruct (isWhiteSpace ch); cbn [negb rev app]; [apply app_nil_r |].
  reflexivity.
Qed.

Lemma inkOf_trimStart s : inkOf (trimStart s) = inkOf s.
Proof.
  induction s as [| ch s IH]; [reflexivity |].
  cbn [trimStart]. destruct (isWhiteSpace ch) eqn:E; [| reflexivity].
  rewrite IH. unfold inkOf. cbn [filter]. now rewrite E.
Qed.

Lemma inkOf_trim s : inkOf (trim s) = inkOf s.
Proof.
  unfold trim, trimEnd.
  now rewrite inkOf_rev, inkOf_trimStart, inkOf_rev, rev_involutive,
    inkOf_trimStart.
Qed.

Lemma inkOf_collapse s : forall inRun,
  inkOf (collapseWhiteSpace inRun s) = inkOf s.
Proof.
  induction s as [| ch s IH]; intros inRun; [reflexivity |].
  cbn [collapseWhiteSpace]. destruct (isWhiteSpace ch) eqn:E.
  - rewrite inkOf_app, IH. unfold inkOf at 3. cbn [filter]. rewrite E.
    cbn [negb]. now destruct inRun.
  - unfold inkOf. cbn [filter]. rewrite E. cbn [negb]. f_equal. apply IH.
Qed.

Lemma inkOf_replaceNewlines s : inkOf (replaceNewlines s) = inkOf s.
Proof.
  induction s as [| ch s IH]; [reflexivity |].
  unfold replaceNewlines, inkOf in *. cbn [map filter]. rewrite IH.
  destruct (Z.eqb_spec ch 0x0A) as [-> | _]; reflexivity.
Qed.

(** Cleaning touches white space only: the other characters are all kept,
    in their order; and a text of white space only becomes empty. *)
Theorem cleanText_keeps_ink (text : str) :
  inkOf (cleanText text) = inkOf text
  /\ (blank text = true -> cleanText text = []).
Proof.
  assert (E : inkOf (cleanText text) = inkOf text).
  { unfold cleanText.
    now rewrite inkOf_trim, inkOf_collapse, inkOf_replaceNewlines. }
  split; [exact E |]. intros Hb.
  destruct (cleanText_shape text) as (_ & _ & Ht).
  assert (Hink : inkOf text = []).
  { clear - Hb. induction text as [| ch s IH]; [reflexivity |].
    cbn [blank forallb] in Hb. apply andb_true_iff in Hb as [Hc Hs].
    unfold inkOf. cbn [filter]. rewrite Hc. now apply IH. }
  rewrite Hink in E.
  destruct (cleanText text) as [| ch s]; [reflexivity |].
  unfold trimmed in Ht. apply andb_true_iff in Ht as [Hh _].
  cbn in Hh. unfold inkOf in E. cbn [filter] in E.
  rewrite Hh in E. discriminate.
Qed.

(** Two words between line feeds and tabs. *)
Lemma cleanText_keeps_ink_witness :
  cleanText [0x0A; 0x61; 0x09; 0x0A; 0x20; 0x62; 0x0A] = [0x61; 0x20; 0x62]
  /\ cleanText [0x0A; 0x09; 0x20] = [].
Proof.
  split; [vm_compute; reflexivity |].
  apply (proj2 (cleanText_keeps_ink [0x0A; 0x09; 0x20])). reflexivity.
Defined.
